(** * Streaming queue and authorization retry of the two 3LO agent samples

    Shallow embedding of
      13-AgentCore-identity/05-Outbound_Auth_3lo/strands_claude_google_3lo.py
      13-AgentCore-identity/06-Outbound_Auth_Github/github_agent.py

    Python objects are values of [pyval]; a Python [str] is a [string]
    (its UTF-8 bytes).  Code with effects is written in a small trace and
    completion monad [M]: a computation yields the list of the effects it
    performed, in order, and how it completed (normally, by [return], or by
    a raised exception).  The two coroutines of a request, the background
    task and the generator that drains the queue, are interleaved by an
    explicit schedule. *)

From Stdlib Require Import String Ascii List Bool Arith ZArith Lia.
From Stdlib Require Import DecimalString.
Import ListNotations.
Local Open Scope string_scope.
Local Open Scope list_scope.
Set Warnings "-register-all".

(** Concatenation of texts, apart from the [++] of lists. *)
Infix "+++" := String.append (right associativity, at level 60).

(** ** Python values *)

Inductive pyval : Type :=
| PNone
| PBool (b : bool)
| PInt (n : Z)
| PStr (s : string)
| PList (l : list pyval)
| PDict (d : list (string * pyval)).

Definition is_None (v : pyval) : bool :=
  match v with PNone => true | _ => false end.

(** [bool(v)]: None, False, 0, the empty string, list and dict are falsy. *)
Definition truthy (v : pyval) : bool :=
  match v with
  | PNone => false
  | PBool b => b
  | PInt n => negb (Z.eqb n 0)
  | PStr s => negb (String.eqb s "")
  | PList l => match l with [] => false | _ => true end
  | PDict d => match d with [] => false | _ => true end
  end.

(** [k in d] and [d.get(k, default)] on the entries of a dict. *)
Fixpoint dict_lookup (k : string) (d : list (string * pyval)) : option pyval :=
  match d with
  | [] => None
  | (k', v) :: d' => if String.eqb k k' then Some v else dict_lookup k d'
  end.

Definition dict_get (d : list (string * pyval)) (k : string) (default : pyval) : pyval :=
  match dict_lookup k d with Some v => v | None => default end.

(** ** Text *)

(** [str.lower] on the ASCII letters; the bytes of other characters are kept.
    Every keyword below is made of ASCII letters and spaces, and no
    character outside ASCII lowers to a text in which one of them starts or
    continues, so matching the keywords is not affected by that. *)
Definition lower_ascii (c : ascii) : ascii :=
  let n := nat_of_ascii c in
  if ((65 <=? n) && (n <=? 90))%nat then ascii_of_nat (n + 32) else c.

Fixpoint lower (s : string) : string :=
  match s with
  | EmptyString => EmptyString
  | String c s' => String (lower_ascii c) (lower s')
  end.

Definition upper_ascii (c : ascii) : ascii :=
  let n := nat_of_ascii c in
  if ((97 <=? n) && (n <=? 122))%nat then ascii_of_nat (n - 32) else c.

Fixpoint upper (s : string) : string :=
  match s with
  | EmptyString => EmptyString
  | String c s' => String (upper_ascii c) (upper s')
  end.

(** [sub in s]: [sub] starts at some position of [s]. *)
Fixpoint str_in (sub s : string) : bool :=
  String.prefix sub s ||
  match s with
  | EmptyString => false
  | String _ s' => str_in sub s'
  end.

(** [s[:n]] *)
Fixpoint str_take (n : nat) (s : string) : string :=
  match n, s with
  | S n', String c s' => String c (str_take n' s')
  | _, _ => EmptyString
  end.

(** ** Exceptions *)

(** What the handlers of the two scripts tell apart: the class the
    [except] clauses test, and the text [str(e)]. *)
Inductive exn_class : Type :=
| HttpError                                        (* googleapiclient.errors *)
| HTTPStatusError (status_code : Z) (text : string)  (* httpx, with e.response *)
| OtherException                                   (* any other Exception *)
| BaseOnly.                     (* a BaseException that is not an Exception *)

Record pyexn : Type := { exn_class_of : exn_class; exn_str : string }.

Definition is_Exception (e : pyexn) : bool :=
  match exn_class_of e with BaseOnly => false | _ => true end.

Definition is_HttpError (e : pyexn) : bool :=
  match exn_class_of e with HttpError => true | _ => false end.

Definition is_HTTPStatusError (e : pyexn) : bool :=
  match exn_class_of e with HTTPStatusError _ _ => true | _ => false end.

(** ** Effects *)

Inductive action : Type :=
| APut (item : pyval)            (* await queue.put(item) *)
| AFinish                        (* await queue.finish() *)
| ASetToken (tok : string)       (* assignment to the global token *)
| ACallAgent (user_message : pyval)   (* agent(user_message) *)
| AOAuth                         (* the call of the decorated token function *)
| APrint (s : string)
| ARequest (url : string) (token : string).   (* a call over the network *)

Inductive completion (A : Type) : Type :=
| Normal (a : A)
| Return                         (* a [return] that leaves the function *)
| Raise (e : pyexn).
Arguments Normal {A} a.
Arguments Return {A}.
Arguments Raise {A} e.

Definition M (A : Type) : Type := (list action * completion A)%type.

Definition ret {A} (a : A) : M A := ([], Normal a).

Definition bind {A B} (m : M A) (k : A -> M B) : M B :=
  match m with
  | (t, Normal a) => let (t', c) := k a in (t ++ t', c)
  | (t, Return) => (t, Return)
  | (t, Raise e) => (t, Raise e)
  end.

Definition emit (a : action) : M unit := ([a], Normal tt).
Definition raise {A} (e : pyexn) : M A := ([], Raise e).
Definition py_return {A} : M A := ([], Return).

(** The outcome of a call into a library: a value, or a raised exception. *)
Definition lift {A} (r : pyexn + A) : M A :=
  match r with inl e => raise e | inr a => ret a end.

Notation "x <- m ;; k" := (bind m (fun x => k))
  (at level 61, m at next level, right associativity).
Notation "m ;; k" := (bind m (fun _ => k))
  (at level 61, right associativity).

(** [try: body / except C1 as e: h1 e / except C2 as e: h2 e ...]: the first
    clause whose class test accepts the exception handles it; an exception
    raised by a handler is not handled by the clauses of the same [try]. *)
Fixpoint select_handler {A} (clauses : list ((pyexn -> bool) * (pyexn -> M A)))
    (e : pyexn) : option (M A) :=
  match clauses with
  | [] => None
  | (accepts, handler) :: rest =>
      if accepts e then Some (handler e) else select_handler rest e
  end.

Definition try_excepts {A} (body : M A)
    (clauses : list ((pyexn -> bool) * (pyexn -> M A))) : M A :=
  match body with
  | (t, Raise e) =>
      match select_handler clauses e with
      | Some (t', c) => (t ++ t', c)
      | None => (t, Raise e)
      end
  | done => done
  end.

(** [try: body / except Exception as e: handler e] *)
Definition try_except {A} (body : M A) (handler : pyexn -> M A) : M A :=
  try_excepts body [(is_Exception, handler)].

(** [try: body / finally: cleanup]: the cleanup runs however the body
    completed, and the body's completion stands when the cleanup is normal. *)
Definition try_finally {A} (body : M A) (cleanup : M unit) : M A :=
  let (t, c) := body in
  match cleanup with
  | (t', Normal _) => (t ++ t', c)
  | (t', Return) => (t ++ t', Return)
  | (t', Raise e) => (t ++ t', Raise e)
  end.

(** The body of a [def] without a result: [return] ends it normally. *)
Definition def (body : M unit) : M unit :=
  match body with
  | (t, Return) => (t, Normal tt)
  | done => done
  end.

Fixpoint for_each {A} (l : list A) (body : A -> M unit) : M unit :=
  match l with
  | [] => ret tt
  | x :: l' => body x ;; for_each l' body
  end.

Definition trace {A} (m : M A) : list action := fst m.
Definition outcome {A} (m : M A) : completion A := snd m.

(** ** What the Python runtime and the json library compute

    [str], [json.dumps] and the texts of the [TypeError]s the interpreter
    raises are not code of the samples: they are taken as given. *)
Class Runtime : Type := {
  py_str : pyval -> string;            (* str(v), also inside an f-string *)
  json_dumps : pyval -> string;        (* json.dumps(v) *)
  concat_error : pyval -> string;      (* text of the TypeError of  s += v *)
  join_error : nat -> pyval -> string  (* text of the TypeError of "".join
                                          whose item number i is v *)
}.

Definition type_error (text : string) : pyexn :=
  {| exn_class_of := OtherException; exn_str := text |}.

(** ** StreamingQueue

    The class is the same in both scripts (the GitHub script names the
    fields [_finished] and [_queue]).  [asyncio.Queue()] is unbounded and
    first in, first out: [put] appends at the tail and never waits, [get]
    removes the head and waits while the queue is empty. *)
Module StreamingQueue.

Record t : Type := { finished : bool; queue : list pyval }.

(** [__init__] *)
Definition init : t := {| finished := false; queue := [] |}.

Definition put (item : pyval) (self : t) : t :=
  {| finished := finished self; queue := queue self ++ [item] |}.

Definition finish (self : t) : t :=
  {| finished := true; queue := queue self ++ [PNone] |}.

(** One turn of the loop of [stream]: [await self.queue.get()] waits on an
    empty queue; otherwise the head is removed, and the loop breaks when
    [item is None and self.finished], and yields the item when not. *)
Inductive turn : Type :=
| Waiting
| Yield (item : pyval) (self' : t)
| Break (self' : t).

Definition stream (self : t) : turn :=
  match queue self with
  | [] => Waiting
  | item :: rest =>
      let self' := {| finished := finished self; queue := rest |} in
      if is_None item && finished self then Break self' else Yield item self'
  end.

End StreamingQueue.

(** ** The module globals and a request

    Each script creates [queue = StreamingQueue()] and the token slot once,
    at module level; every call of [agent_invocation] works on them. *)
Record globals : Type := {
  queue : StreamingQueue.t;
  access_token : option string
}.

(** The globals when the module has been loaded. *)
Definition loaded : globals :=
  {| queue := StreamingQueue.init; access_token := None |}.

(** The effect of one action of the task on the globals. *)
Definition perform (a : action) (g : globals) : globals :=
  match a with
  | APut item =>
      {| queue := StreamingQueue.put item (queue g);
         access_token := access_token g |}
  | AFinish =>
      {| queue := StreamingQueue.finish (queue g);
         access_token := access_token g |}
  | ASetToken tok => {| queue := queue g; access_token := Some tok |}
  | _ => g
  end.

(** [stream_with_task] is first in its [async for] over [queue.stream()],
    then in [await task], then over. *)
Inductive generator : Type :=
| Draining
| Awaiting
| Returned (r : completion unit).

(** A request in flight: the globals, what the task has still to do and how
    it will complete, what it has done, where the generator is, and the
    items the generator has yielded to the caller. *)
Record request : Type := {
  env : globals;
  pending : list action;
  task_outcome : completion unit;
  history : list action;
  gen : generator;
  yielded : list pyval
}.

(** [task = asyncio.create_task(...)] and the return of the generator. *)
Definition create_task (m : M unit) (g : globals) : request :=
  {| env := g; pending := trace m; task_outcome := outcome m;
     history := []; gen := Draining; yielded := [] |}.

Inductive coroutine : Type := Task | Generator.

Definition task_step (r : request) : request :=
  match pending r with
  | [] => r
  | a :: rest =>
      {| env := perform a (env r); pending := rest;
         task_outcome := task_outcome r; history := history r ++ [a];
         gen := gen r; yielded := yielded r |}
  end.

Definition with_queue (g : globals) (q : StreamingQueue.t) : globals :=
  {| queue := q; access_token := access_token g |}.

(** [async for item in queue.stream(): yield item], then [await task]:
    the await gives the task's result, or raises what the task raised,
    once the task is done. *)
Definition stream_with_task (r : request) : request :=
  match gen r with
  | Draining =>
      match StreamingQueue.stream (queue (env r)) with
      | StreamingQueue.Waiting => r
      | StreamingQueue.Yield item q' =>
          {| env := with_queue (env r) q'; pending := pending r;
             task_outcome := task_outcome r; history := history r;
             gen := Draining; yielded := yielded r ++ [item] |}
      | StreamingQueue.Break q' =>
          {| env := with_queue (env r) q'; pending := pending r;
             task_outcome := task_outcome r; history := history r;
             gen := Awaiting; yielded := yielded r |}
      end
  | Awaiting =>
      match pending r with
      | [] =>
          {| env := env r; pending := []; task_outcome := task_outcome r;
             history := history r; gen := Returned (task_outcome r);
             yielded := yielded r |}
      | _ :: _ => r
      end
  | Returned _ => r
  end.

Definition step (c : coroutine) (r : request) : request :=
  match c with
  | Task => task_step r
  | Generator => stream_with_task r
  end.

(** The event loop runs the two coroutines in some order. *)
Definition run (schedule : list coroutine) (r : request) : request :=
  fold_left (fun r c => step c r) schedule r.

(** The items a list of actions appends to the queue, in order. *)
Definition enqueued_by (a : action) : list pyval :=
  match a with
  | APut item => [item]
  | AFinish => [PNone]
  | _ => []
  end.

Definition enqueued (acts : list action) : list pyval :=
  flat_map enqueued_by acts.

Definition is_finish (a : action) : bool :=
  match a with AFinish => true | _ => false end.

(** The items enqueued before the first [finish] of a list of actions. *)
Fixpoint before_finish (acts : list action) : list pyval :=
  match acts with
  | [] => []
  | AFinish :: _ => []
  | a :: rest => enqueued_by a ++ before_finish rest
  end.

(** The sentinel of the first [finish] and what is enqueued behind it. *)
Fixpoint from_finish (acts : list action) : list pyval :=
  match acts with
  | [] => []
  | AFinish :: rest => PNone :: enqueued rest
  | _ :: rest => from_finish rest
  end.

(** ** The collaborators of a request

    The agent and the identity service are not code of the samples.  A
    request is run against the outcomes of its calls into them: what each
    call of the agent returns or raises, the authorization urls the
    decorator hands to [on_auth_url], and the token the exchange returns, or
    what it raises. *)
Record response : Type := { message : pyval }.

Record outcomes : Type := {
  first_call : pyexn + response;
  auth_urls : list string;
  exchange : pyexn + string;
  retry_call : pyexn + response
}.

(** [agent(user_message)] *)
Definition agent (result : pyexn + response) (user_message : pyval) : M response :=
  emit (ACallAgent user_message) ;; lift result.

(** [@requires_access_token(..., on_auth_url=on_auth_url, ...)] around [f]:
    the decorator obtains the token, calling [on_auth_url] where the user
    has to authorize, and calls [f] with [access_token] set to the token. *)
Definition requires_access_token (on_auth_url : string -> M unit)
    (f : string -> M string) (o : outcomes) : M string :=
  emit AOAuth ;;
  for_each (auth_urls o) on_auth_url ;;
  access_token <- lift (exchange o) ;;
  f access_token.

(** The token slot as the Python value it holds, and as text. *)
Definition slot (tok : option string) : pyval :=
  match tok with None => PNone | Some s => PStr s end.

Definition token_text (tok : option string) : string :=
  match tok with None => "" | Some s => s end.

Definition newline : string := String (ascii_of_nat 10) EmptyString.

Fixpoint join (sep : string) (l : list string) : string :=
  match l with
  | [] => ""
  | [x] => x
  | x :: l' => x +++ sep +++ join sep l'
  end.

(** ** strands_claude_google_3lo.py *)
Module Google.
Section Script.
Context {rt : Runtime}.

Definition SCOPES : list string :=
  ["https://www.googleapis.com/auth/calendar.readonly"].

(** The clock and the Google API client: the day as
    [strftime('%Y-%m-%d')] gives it, [build], and
    [service.events().list(...).execute()] from the token and the two
    time bounds. *)
Record calendar_api : Type := {
  today : string;
  build : string -> pyexn + unit;
  events_list : string -> string -> string -> pyexn + list (string * pyval)
}.

Definition auth_required : pyval :=
  PDict [("auth_required", PBool true);
         ("message", PStr "Google Calendar authentication is required. Please wait while we set up the authorization.");
         ("events", PList [])].

Definition error_result (e : pyexn) : M string :=
  ret (json_dumps (PDict [("error", PStr (exn_str e)); ("events", PList [])])).

Definition get_calendar_events_today (api : calendar_api) (g : globals)
    : M string :=
  let google_access_token := access_token g in
  if negb (truthy (slot google_access_token)) then
    ret (json_dumps auth_required)
  else
    let token := token_text google_access_token in
    try_excepts
      (emit (ARequest "build(calendar, v3)" token) ;;
       lift (build api token) ;;
       let time_min := today api +++ "T00:00:00-05:00" in
       let time_max := today api +++ "T23:59:59-05:00" in
       emit (ARequest "events().list(calendarId=primary).execute()" token) ;;
       events_result <- lift (events_list api token time_min time_max) ;;
       let events := dict_get events_result "items" (PList []) in
       if negb (truthy events) then
         ret (json_dumps (PDict [("events", PList [])]))
       else
         ret (json_dumps (PDict [("events", events)])))
      [(is_HttpError, error_result); (is_Exception, error_result)].

Definition on_auth_url (url : string) : M unit :=
  emit (APrint ("Authorization url: " +++ url)) ;;
  emit (APut (PStr ("Authorization url: " +++ url))).

(** The loop [for item in content: ... response_text += item['text']]. *)
Fixpoint add_texts (content : list pyval) (response_text : string) : M string :=
  match content with
  | [] => ret response_text
  | PDict item :: rest =>
      match dict_lookup "text" item with
      | Some (PStr s) => add_texts rest (response_text +++ s)
      | Some v => raise (type_error (concat_error v))
      | None => add_texts rest response_text
      end
  | _ :: rest => add_texts rest response_text
  end.

Definition response_text_of (r : response) : M string :=
  match message r with
  | PDict d =>
      match dict_get d "content" (PList []) with
      | PList content => add_texts content ""
      | _ => ret ""
      end
  | other => ret (py_str other)
  end.

Definition auth_keywords : list string :=
  ["authentication"; "authorize"; "authorization"; "auth";
   "sign in"; "login"; "access"; "permission"; "credential";
   "need authentication"; "requires authentication"].

(** [any(keyword.lower() in response_text.lower() for keyword in auth_keywords)] *)
Definition needs_auth (response_text : string) : bool :=
  existsb (fun keyword => str_in (lower keyword) (lower response_text))
          auth_keywords.

(** The body under the decorator. *)
Definition need_token_3lo_async_body (access_token : string) : M string :=
  emit (ASetToken access_token) ;;
  ret access_token.

Definition need_token_3lo_async : outcomes -> M string :=
  requires_access_token on_auth_url need_token_3lo_async_body.

Definition agent_task (o : outcomes) (user_message : pyval) : M unit :=
  def (try_finally
    (try_except
      (emit (APut (PStr "Begin agent execution")) ;;
       response <- agent (first_call o) user_message ;;
       response_text <- response_text_of response ;;
       response <-
         (if needs_auth response_text then
            emit (APut (PStr "Authentication required for Google Calendar access. Starting authorization flow...")) ;;
            try_except
              (google_access_token <- need_token_3lo_async o ;;
               emit (ASetToken google_access_token) ;;
               emit (APut (PStr "Authentication successful! Retrying calendar request...")) ;;
               agent (retry_call o) user_message)
              (fun auth_error =>
                 emit (APrint ("auth_error: " +++ exn_str auth_error)) ;;
                 emit (APut (PStr ("Authentication failed: " +++ exn_str auth_error))) ;;
                 ret response)
          else ret response) ;;
       emit (APut (message response)) ;;
       emit (APut (PStr "End agent execution")))
      (fun e => emit (APut (PStr ("Error: " +++ exn_str e)))))
    (emit AFinish)).

Definition agent_invocation (o : outcomes) (payload : list (string * pyval))
    (g : globals) : request :=
  let user_message :=
    dict_get payload "prompt"
      (PStr "No prompt found in input, please guide customer to create a json payload with prompt key") in
  create_task (agent_task o user_message) g.

End Script.
End Google.

(** ** github_agent.py *)
Module Github.
Section Script.
Context {rt : Runtime}.

(** The JSON objects of the GitHub REST API that the tool reads, by the
    fields it reads: an absent or null field is [None]. *)
Record user_json : Type := { login : option string }.

Record repo_json : Type := {
  name : string;
  language : option string;
  stargazers_count : Z;
  description : option string
}.

Record search_json : Type := { items : option (list repo_json) }.

(** An [httpx] response: what [raise_for_status()] raises, if it does,
    and what [json()] returns or raises. *)
Record http_response (A : Type) : Type := {
  status_error : option pyexn;
  json : pyexn + A
}.
Arguments status_error {A} _.
Arguments json {A} _.

(** [client.get(url, headers=headers)] for the two urls, from the url and
    the bearer token. *)
Record github_api : Type := {
  get_user : string -> string -> pyexn + http_response user_json;
  get_search : string -> string -> pyexn + http_response search_json
}.

Definition raise_for_status {A} (r : http_response A) : M unit :=
  match status_error r with
  | Some e => raise e
  | None => ret tt
  end.

Definition auth_required : pyval :=
  PDict [("auth_required", PBool true);
         ("message", PStr "GitHub authentication is required. Please wait while we set up the authorization.");
         ("events", PList [])].

(** [repo.get(field)] is truthy. *)
Definition present (field : option string) : bool :=
  truthy (slot field).

(** The lines the loop over [repos] appends for one repository. *)
Definition repo_lines (repo : repo_json) : list string :=
  let repo_line := "📁 " +++ name repo in
  let repo_line :=
    if present (language repo)
    then repo_line +++ " (" +++ token_text (language repo) +++ ")"
    else repo_line in
  let repo_line :=
    repo_line +++ " - ⭐ " +++ py_str (PInt (stargazers_count repo)) in
  [repo_line]
  ++ (if present (description repo)
      then ["   " +++ token_text (description repo)] else [])
  ++ [""].

Definition inspect_github_repos (api : github_api) (g : globals) : M string :=
  let github_access_token := access_token g in
  if negb (truthy (slot github_access_token)) then
    ret (json_dumps auth_required)
  else
    let token := token_text github_access_token in
    emit (APrint ("Using GitHub access token: " +++ str_take 10 token +++ "...")) ;;
    try_excepts
      (emit (ARequest "https://api.github.com/user" token) ;;
       user_response <- lift (get_user api "https://api.github.com/user" token) ;;
       raise_for_status user_response ;;
       user <- lift (json user_response) ;;
       let username :=
         match login user with Some s => s | None => "Unknown" end in
       emit (APrint ("✅ User: " +++ username)) ;;
       let url :=
         "https://api.github.com/search/repositories?q=user:" +++ username in
       emit (ARequest url token) ;;
       repos_response <- lift (get_search api url token) ;;
       raise_for_status repos_response ;;
       repos_data <- lift (json repos_response) ;;
       let repos :=
         match items repos_data with Some l => l | None => [] end in
       emit (APrint ("✅ Found "
                     +++ py_str (PInt (Z.of_nat (length repos)))
                     +++ " repositories")) ;;
       match repos with
       | [] => ret ("No repositories found for " +++ username +++ ".")
       | _ :: _ =>
           let response_lines :=
             ["GitHub repositories for " +++ username +++ ":" +++ newline]
             ++ flat_map repo_lines repos in
           ret (join newline response_lines)
       end)
      [(is_HTTPStatusError,
        fun e =>
          match exn_class_of e with
          | HTTPStatusError status_code text =>
              ret ("GitHub API error: " +++ py_str (PInt status_code)
                   +++ " - " +++ text)
          | _ => raise e
          end);
       (is_Exception,
        fun e => ret ("Error fetching GitHub repositories: " +++ exn_str e))].

Definition on_auth_url (url : string) : M unit :=
  emit (APrint ("Authorization URL: " +++ url)) ;;
  emit (APut (PStr ("Authorization URL: " +++ url))).

(** [item.get('text', '') for item in content
     if isinstance(item, dict) and 'text' in item] *)
Fixpoint texts (content : list pyval) : list pyval :=
  match content with
  | [] => []
  | PDict item :: rest =>
      match dict_lookup "text" item with
      | Some v => dict_get item "text" (PStr "") :: texts rest
      | None => texts rest
      end
  | _ :: rest => texts rest
  end.

(** [str.join] of the empty separator: every item has to be a [str]. *)
Fixpoint join_texts (i : nat) (l : list pyval) : M string :=
  match l with
  | [] => ret ""
  | PStr s :: rest => tail <- join_texts (S i) rest ;; ret (s +++ tail)
  | v :: _ => raise (type_error (join_error i v))
  end.

Definition extract_response_text (r : response) : M string :=
  match message r with
  | PDict d =>
      match dict_get d "content" (PList []) with
      | PList content => join_texts 0 (texts content)
      | _ => ret (py_str (message r))
      end
  | _ => ret (py_str (message r))
  end.

Definition needs_authentication (response_text : string) : bool :=
  let auth_keywords :=
    ["authentication"; "authorize"; "authorization"; "auth";
     "sign in"; "login"; "access"; "permission"; "credential";
     "need authentication"; "requires authentication"] in
  existsb (fun keyword => str_in (lower keyword) (lower response_text))
          auth_keywords.

(** The body under the decorator. *)
Definition need_token_3LO_async_body (access_token : string) : M string :=
  emit (ASetToken access_token) ;;
  ret access_token.

Definition need_token_3LO_async : outcomes -> M string :=
  requires_access_token on_auth_url need_token_3LO_async_body.

Definition agent_task (o : outcomes) (user_message : pyval) : M unit :=
  def (try_finally
    (try_except
      (emit (APut (PStr "Begin agent execution")) ;;
       response <- agent (first_call o) user_message ;;
       response_text <- extract_response_text response ;;
       response <-
         (if needs_authentication response_text then
            emit (APut (PStr "Authentication required for GitHub access. Starting authorization flow...")) ;;
            try_except
              (github_access_token <- need_token_3LO_async o ;;
               emit (ASetToken github_access_token) ;;
               emit (APut (PStr "Authentication successful! Retrying GitHub request...")) ;;
               agent (retry_call o) user_message)
              (fun auth_error =>
                 emit (APrint ("Authentication error: " +++ exn_str auth_error)) ;;
                 emit (APut (PStr ("Authentication failed: " +++ exn_str auth_error))) ;;
                 py_return)
          else ret response) ;;
       emit (APut (message response)) ;;
       emit (APut (PStr "End agent execution")))
      (fun e => emit (APut (PStr ("Error: " +++ exn_str e)))))
    (emit AFinish)).

Definition agent_invocation (o : outcomes) (payload : list (string * pyval))
    (g : globals) : request :=
  let user_message :=
    dict_get payload "prompt"
      (PStr "No prompt found in input, please guide customer to create a JSON payload with prompt key") in
  create_task (agent_task o user_message) g.

End Script.
End Github.

(** ** Reading a request *)

(** The loop of [stream] has ended. *)
Definition ended (r : request) : bool :=
  match gen r with Draining => false | _ => true end.

(** The sentinel the loop removed when it ended. *)
Definition taken (r : request) : list pyval :=
  if ended r then [PNone] else [].

(** A task that runs the given actions on the globals [g]. *)
Definition task_of (acts : list action) (c : completion unit) (g : globals)
    : request :=
  create_task (acts, c) g.

(** [put] of each item in turn, then one [finish]. *)
Definition puts_then_finish (items : list pyval) : list action :=
  map APut items ++ [AFinish].

Definition not_None (v : pyval) : Prop := is_None v = false.

(** What every reachable request satisfies, when the task was created with
    the actions [acts] on an empty queue whose flag was [f0]. *)
Record consistent (f0 : bool) (acts : list action) (r : request) : Prop := {
  c_history : history r ++ pending r = acts;
  c_flag : StreamingQueue.finished (queue (env r))
           = f0 || existsb is_finish (history r);
  c_items : enqueued (history r)
            = yielded r ++ taken r ++ StreamingQueue.queue (queue (env r));
  c_ended : ended r = true -> StreamingQueue.finished (queue (env r)) = true;
  c_returned : forall c, gen r = Returned c ->
               pending r = [] /\ c = task_outcome r
}.

(** The shape of what a task does that calls [finish] once, as its last
    action, and puts no [None]. *)
Definition finishes_last (acts pre : list action) : Prop :=
  acts = pre ++ [AFinish] /\ existsb is_finish pre = false
  /\ Forall not_None (enqueued pre).

(** [keyword] occurs in [text] when case is ignored: some part of the
    text, wherever it stands, is the keyword up to the case of letters. *)
Definition occurs_ignoring_case (keyword text : string) : Prop :=
  exists before found after,
    text = before +++ found +++ after /\ lower found = lower keyword.

(** What [on_auth_url] does for each of the urls it is called with, under
    the wording of a script. *)
Definition url_actions (wording : string) (urls : list string) : list action :=
  flat_map (fun url => [APrint (wording +++ url);
                        APut (PStr (wording +++ url))]) urls.

(** A computation without effects that yields a text or raises an
    [Exception]. *)
Definition pure_text (m : M string) : Prop :=
  (exists text, m = ([], Normal text))
  \/ (exists e, m = ([], Raise e) /\ is_Exception e = true).



Definition count (p : action -> bool) (acts : list action) : nat :=
  length (filter p acts).

(** An item of the Google script and the item of the GitHub script that
    differs from it in the wording of the provider only. *)
Inductive reworded : pyval -> pyval -> Prop :=
| same_item (v : pyval) : reworded v v
| authentication_required :
    reworded
      (PStr "Authentication required for Google Calendar access. Starting authorization flow...")
      (PStr "Authentication required for GitHub access. Starting authorization flow...")
| authorization_url (url : string) :
    reworded (PStr ("Authorization url: " +++ url))
             (PStr ("Authorization URL: " +++ url))
| authentication_successful :
    reworded
      (PStr "Authentication successful! Retrying calendar request...")
      (PStr "Authentication successful! Retrying GitHub request...").

(** The handler of the inner [try] is entered when it runs: the exchange
    raises an [Exception], or it returns and the retried call raises one. *)
Definition handler_entered (o : outcomes) : bool :=
  match exchange o with
  | inl e => is_Exception e
  | inr _ =>
      match retry_call o with
      | inl e => is_Exception e
      | inr _ => false
      end
  end.

(** What [stream_with_task] guarantees about the task [m] it waits for, in
    a request [r]: it has returned only when the task is done, with all the
    task did behind it, and then it gives what the task gave, its exception
    included; its loop has ended only with the flag set; and while it waits
    for a task that is not done it stays where it is. *)
Definition returns_after_task (m : M unit) (r : request) : Prop :=
  (forall c, gen r = Returned c ->
     pending r = [] /\ history r = trace m /\ c = outcome m) /\
  (ended r = true -> StreamingQueue.finished (queue (env r)) = true) /\
  (gen r = Awaiting -> pending r <> [] -> step Generator r = r) /\
  (gen r = Awaiting -> pending r = [] ->
   gen (step Generator r) = Returned (outcome m)).

(** The part of [consistent] that holds on any queue. *)
Record orderly (m : M unit) (r : request) : Prop := {
  o_history : history r ++ pending r = trace m;
  o_outcome : task_outcome r = outcome m;
  o_returned : forall c, gen r = Returned c ->
               pending r = [] /\ c = task_outcome r;
  o_ended : ended r = true -> StreamingQueue.finished (queue (env r)) = true
}.

(** A block of the content of a message from which both scripts read the
    same text: its text, when it has one, is a [str]. *)
Definition text_block (item : pyval) : Prop :=
  match item with
  | PDict d =>
      match dict_lookup "text" d with
      | Some (PStr _) | None => True
      | Some _ => False
      end
  | _ => True
  end.

(** No response of the agent has None as its message. *)
Definition messages_not_None (o : outcomes) : Prop :=
  forall resp, first_call o = inr resp \/ retry_call o = inr resp ->
               not_None (message resp).

(** The queue after a request that has been served to its end. *)
Definition served : StreamingQueue.t :=
  {| StreamingQueue.finished := true; StreamingQueue.queue := [] |}.

(** A request [r0] started on the globals [g] works on the queue of [g]
    itself; under the schedule, when its stream has ended the queue is
    [served]; and letting the task run to its end and the generator take its
    turns ends the request, with the queue [served]. *)
Definition served_on (g : globals) (schedule : list coroutine)
    (r0 : request) : Prop :=
  env r0 = g /\
  (ended (run schedule r0) = true -> queue (env (run schedule r0)) = served) /\
  (let r' := run (schedule ++ repeat Task (length (pending r0))
                  ++ repeat Generator (length (enqueued (pending r0)) + 1))
                 r0 in
   gen r' = Returned (task_outcome r0) /\ queue (env r') = served).

(** What a tool may do with the globals [g]: print, and call out with the
    token that is in the slot. *)
Definition tool_action (g : globals) (a : action) : Prop :=
  match a with
  | APrint _ => True
  | ARequest _ token => access_token g = Some token
  | _ => False
  end.

Definition is_request (a : action) : bool :=
  match a with ARequest _ _ => true | _ => false end.

(** The report of the calendar tool on an exception. *)
Definition error_report {rt : Runtime} (e : pyexn) : string :=
  json_dumps (PDict [("error", PStr (exn_str e)); ("events", PList [])]).

(** The text a block of content contributes: its text when it is a dict
    with a text that is a [str], nothing otherwise. *)
Definition block_text (item : pyval) : string :=
  match item with
  | PDict d =>
      match dict_lookup "text" d with
      | Some (PStr s) => s
      | _ => ""
      end
  | _ => ""
  end.

(** The texts of the blocks of a content, one after the other. *)
Definition content_text (content : list pyval) : string :=
  fold_right String.append "" (map block_text content).

(** The keywords that decide the check: each of the others contains the
    first of these. *)
Definition deciding_keywords : list string :=
  ["auth"; "sign in"; "login"; "access"; "permission"; "credential"].

(** The token in the slot after a list of actions. *)
Definition token_after (acts : list action) (token : option string)
    : option string :=
  fold_left (fun tok a => match a with ASetToken t => Some t | _ => tok end)
            acts token.

(** Once [finish] has been called the flag is set, and while the loop of
    [stream] goes on a None waits in the queue. *)
Record sentinel_waits (r : request) : Prop := {
  w_flag : existsb is_finish (history r) = true ->
           StreamingQueue.finished (queue (env r)) = true;
  w_None : gen r = Draining -> existsb is_finish (history r) = true ->
           In PNone (StreamingQueue.queue (queue (env r)))
}.

(** A request on a queue whose flag is set and that held [items], a None
    and [t] when the task was created: while its loop goes on the generator
    has yielded some of the items and the others are at the head of the
    queue; when the loop has ended it has yielded the items, and the queue
    holds [t] and all the task has enqueued. *)
Definition on_leftovers (items t : list pyval) (r : request) : Prop :=
  StreamingQueue.finished (queue (env r)) = true /\
  match gen r with
  | Draining =>
      exists rest, items = yielded r ++ rest
                   /\ StreamingQueue.queue (queue (env r))
                      = rest ++ PNone :: t ++ enqueued (history r)
  | _ => yielded r = items
         /\ StreamingQueue.queue (queue (env r)) = t ++ enqueued (history r)
  end.

(** ** Sample data *)

(** A runtime for the closed examples: what CPython and its json module
    give for values whose texts hold no character that [repr] or JSON
    escapes. *)
Definition dquote : string := String (ascii_of_nat 34) EmptyString.

Definition decimal (n : Z) : string := NilEmpty.string_of_int (Z.to_int n).

Definition type_name (v : pyval) : string :=
  match v with
  | PNone => "NoneType"
  | PBool _ => "bool"
  | PInt _ => "int"
  | PStr _ => "str"
  | PList _ => "list"
  | PDict _ => "dict"
  end.

Fixpoint sample_repr (v : pyval) : string :=
  match v with
  | PNone => "None"
  | PBool true => "True"
  | PBool false => "False"
  | PInt n => decimal n
  | PStr s => "'" +++ s +++ "'"
  | PList l => "[" +++ join ", " (map sample_repr l) +++ "]"
  | PDict d =>
      "{" +++ join ", " (map (fun '(k, v) => "'" +++ k +++ "': "
                                             +++ sample_repr v) d)
          +++ "}"
  end.

Fixpoint sample_dumps (v : pyval) : string :=
  match v with
  | PNone => "null"
  | PBool true => "true"
  | PBool false => "false"
  | PInt n => decimal n
  | PStr s => dquote +++ s +++ dquote
  | PList l => "[" +++ join ", " (map sample_dumps l) +++ "]"
  | PDict d =>
      "{" +++ join ", " (map (fun '(k, v) => dquote +++ k +++ dquote +++ ": "
                                             +++ sample_dumps v) d)
          +++ "}"
  end.

Definition sample_runtime : Runtime :=
  {| py_str := fun v => match v with PStr s => s | _ => sample_repr v end;
     json_dumps := sample_dumps;
     concat_error := fun v =>
       "can only concatenate str (not " +++ dquote +++ type_name v
       +++ dquote +++ ") to str";
     join_error := fun i v =>
       "sequence item " +++ decimal (Z.of_nat i)
       +++ ": expected str instance, " +++ type_name v +++ " found" |}.

(** The message of a response whose content is one block of text. *)
Definition text_message (text : string) : pyval :=
  PDict [("role", PStr "assistant");
         ("content", PList [PDict [("text", PStr text)]])].

Definition sample_error : pyexn :=
  {| exn_class_of := OtherException; exn_str := "access denied" |}.

(** The agent asks for a login, the user is sent to one url, and the
    exchange fails. *)
Definition exchange_fails : outcomes :=
  {| first_call := inr {| message := text_message "Please login first" |};
     auth_urls := ["https://example.com/authorize"];
     exchange := inl sample_error;
     retry_call := inr {| message := text_message "Your events" |} |}.

(** The agent asks for a login and the exchange returns a token. *)
Definition exchange_succeeds : outcomes :=
  {| first_call := inr {| message := text_message "Please login first" |};
     auth_urls := ["https://example.com/authorize"];
     exchange := inr "token";
     retry_call := inr {| message := text_message "Your events" |} |}.

(** The agent answers at once. *)
Definition answers : outcomes :=
  {| first_call := inr {| message := text_message "Your events" |};
     auth_urls := [];
     exchange := inl sample_error;
     retry_call := inl sample_error |}.


(** A task interrupted in its first call: the call raises what is no
    [Exception]. *)
Definition cancelled : pyexn :=
  {| exn_class_of := BaseOnly; exn_str := "cancelled" |}.

Definition agent_cancelled : outcomes :=
  {| first_call := inl cancelled;
     auth_urls := [];
     exchange := inl sample_error;
     retry_call := inl sample_error |}.

(** A calendar with one event today, and one that cannot be reached. *)
Definition one_event : Google.calendar_api :=
  {| Google.today := "2025-01-01";
     Google.build := fun _ => inr tt;
     Google.events_list := fun _ _ _ =>
       inr [("items", PList [PDict [("summary", PStr "Review")]])] |}.

Definition calendar_down : Google.calendar_api :=
  {| Google.today := "2025-01-01";
     Google.build := fun _ => inr tt;
     Google.events_list := fun _ _ _ =>
       inl {| exn_class_of := HttpError; exn_str := "503" |} |}.

(** The globals with a token in the slot. *)
Definition with_token : globals :=
  {| queue := StreamingQueue.init; access_token := Some "token" |}.




(** The agent asks for a login, the exchange returns a token, and the
    retried call of the agent fails. *)
Definition retry_fails : outcomes :=
  {| first_call := inr {| message := text_message "Please login first" |};
     auth_urls := [];
     exchange := inr "token";
     retry_call := inl {| exn_class_of := OtherException;
                          exn_str := "throttled" |} |}.

(** The schedule in which the task runs to its end before the generator
    takes its first turn: the task of a request that needs no authorization
    never waits, so it is done before the event loop runs the generator. *)
Definition task_first (acts : list action) : list coroutine :=
  repeat Task (length acts) ++ repeat Generator (length (enqueued acts) + 2).

Ltac step_cases r :=
  destruct r as [[[f q] tok] p c h g y];
  unfold step, stream_with_task, task_step, StreamingQueue.stream;
  simpl in *.


(** * Proofs *)

(** ** Lists of actions *)

Lemma enqueued_app (h1 h2 : list action) :
  enqueued (h1 ++ h2) = enqueued h1 ++ enqueued h2.
Proof. unfold enqueued. apply flat_map_app. Qed.

Lemma enqueued_snoc (h : list action) (a : action) :
  enqueued (h ++ [a]) = enqueued h ++ enqueued_by a.
Proof. rewrite enqueued_app. simpl. now rewrite app_nil_r. Qed.

Lemma finish_snoc (h : list action) (a : action) :
  existsb is_finish (h ++ [a]) = existsb is_finish h || is_finish a.
Proof. rewrite existsb_app. simpl. now rewrite orb_false_r. Qed.

Lemma enqueued_split (h : list action) :
  enqueued h = before_finish h ++ from_finish h.
Proof.
  induction h as [|a h IH]; [reflexivity|].
  destruct a; simpl; rewrite ?IH, ?app_assoc; reflexivity.
Qed.

Lemma from_finish_none (h : list action) :
  existsb is_finish h = false -> from_finish h = [].
Proof.
  induction h as [|a h IH]; [reflexivity|].
  destruct a; simpl; auto; discriminate.
Qed.

Lemma from_finish_some (h : list action) :
  existsb is_finish h = true -> exists l, from_finish h = PNone :: l.
Proof.
  induction h as [|a h IH]; [discriminate|].
  destruct a; simpl; auto. intros _. eauto.
Qed.

Lemma before_finish_app (h p : list action) :
  exists l, before_finish (h ++ p) = before_finish h ++ l.
Proof.
  induction h as [|a h [l IH]]; simpl.
  - now exists (before_finish p).
  - destruct a; simpl; rewrite ?IH; eauto.
Qed.

Lemma before_finish_snoc (h : list action) (a : action) :
  before_finish (h ++ [a])
  = before_finish h
    ++ (if existsb is_finish h || is_finish a then [] else enqueued_by a).
Proof.
  induction h as [|b h IH]; simpl.
  - destruct a; reflexivity.
  - destruct b; simpl; rewrite ?IH, ?app_nil_r; reflexivity.
Qed.

Lemma before_finish_puts (items : list pyval) (rest : list action) :
  before_finish (map APut items ++ AFinish :: rest) = items.
Proof. induction items as [|x l IH]; simpl; [|rewrite IH]; reflexivity. Qed.

Lemma enqueued_puts (items : list pyval) :
  enqueued (map APut items) = items.
Proof. induction items as [|x l IH]; simpl; [|rewrite IH]; reflexivity. Qed.

Lemma finish_puts (items : list pyval) :
  existsb is_finish (map APut items) = false.
Proof. induction items as [|x l IH]; simpl; auto. Qed.

(** ** One step and a whole schedule *)

Lemma run_app (s1 s2 : list coroutine) (r : request) :
  run (s1 ++ s2) r = run s2 (run s1 r).
Proof. unfold run. apply fold_left_app. Qed.

Lemma step_consistent (f0 : bool) (acts : list action) (c : coroutine)
    (r : request) :
  consistent f0 acts r -> consistent f0 acts (step c r).
Proof.
  intros [Hh Hf Hi He Hr]. destruct c; step_cases r.
  - (* the task *)
    destruct p as [|a p]; [now constructor|].
    constructor; simpl.
    + now rewrite <- app_assoc.
    + rewrite finish_snoc.
      destruct a; simpl; rewrite ?orb_false_r, ?orb_true_r; auto.
    + rewrite enqueued_snoc, Hi. unfold taken, ended. simpl.
      destruct a; simpl; rewrite ?app_nil_r, <- ?app_assoc; reflexivity.
    + intros E. specialize (He E). destruct a; simpl; auto.
    + intros c' E. destruct (Hr c' E) as [E' _]. discriminate.
  - (* the generator *)
    destruct g as [| |c'].
    + destruct q as [|item q]; [now constructor|].
      destruct (is_None item && f) eqn:B; constructor; simpl; auto;
        try discriminate.
      * apply andb_true_iff in B as [N _]. destruct item; try discriminate.
        unfold taken, ended in *. simpl in *. exact Hi.
      * intros _. now apply andb_true_iff in B.
      * unfold taken, ended in *. simpl in *.
        now rewrite Hi, <- app_assoc.
    + destruct p; constructor; simpl; auto; try discriminate.
      intros c' E. injection E as <-. auto.
    + now constructor.
Qed.

Lemma run_consistent (f0 : bool) (acts : list action)
    (schedule : list coroutine) (r : request) :
  consistent f0 acts r -> consistent f0 acts (run schedule r).
Proof.
  revert r. induction schedule as [|c s IH]; intros r H; [exact H|].
  apply IH, step_consistent, H.
Qed.

Lemma created_consistent (acts : list action) (c : completion unit)
    (g : globals) :
  StreamingQueue.queue (queue g) = [] ->
  consistent (StreamingQueue.finished (queue g)) acts (task_of acts c g).
Proof.
  intros E. constructor; simpl; auto; try discriminate.
  now rewrite orb_false_r.
Qed.

(** ** Prefixes *)

Lemma app_same_length {A} (a b x y : list A) :
  length a = length b -> a ++ x = b ++ y -> a = b /\ x = y.
Proof.
  revert b. induction a as [|u a IH]; intros [|v b] L E; try discriminate.
  - auto.
  - simpl in *. injection E as -> E. injection L as L.
    destruct (IH b L E) as [-> ->]. auto.
Qed.

Lemma app_shorter {A} (a b x y : list A) :
  a ++ x = b ++ y -> length a <= length b -> exists l, b = a ++ l.
Proof.
  revert b. induction a as [|u a IH]; intros b E L.
  - now exists b.
  - destruct b as [|v b]; simpl in *; [lia|].
    injection E as -> E. destruct (IH b E) as [l ->]; [lia|]. now exists l.
Qed.

(** A list without [None] that starts a list whose only [None] comes after
    [items] starts [items]. *)
Lemma prefix_before_None (y items l t : list pyval) :
  Forall not_None y -> y ++ l = items ++ PNone :: t ->
  exists rest, items = y ++ rest.
Proof.
  intros Hy E.
  destruct (Nat.le_gt_cases (length y) (length items)) as [L|L].
  - eapply app_shorter; eauto.
  - symmetry in E. destruct (app_shorter _ _ _ _ E) as [k ->]; [lia|].
    rewrite <- app_assoc in E. apply app_inv_head in E.
    destruct k as [|v k]; [rewrite app_nil_r in L; lia|].
    injection E as <- _. apply Forall_app in Hy as [_ Hy].
    inversion Hy as [|? ? N _]. discriminate N.
Qed.

(** The first [None] of a list is where it is. *)
Lemma first_None_unique (y items q t : list pyval) :
  Forall not_None y -> Forall not_None items ->
  y ++ PNone :: q = items ++ PNone :: t -> y = items /\ q = t.
Proof.
  revert items. induction y as [|u y IH]; intros [|v items] Hy Hi E;
    simpl in *.
  - injection E as E. auto.
  - injection E as <- _. inversion Hi as [|? ? N _]. discriminate N.
  - injection E as -> _. inversion Hy as [|? ? N _]. discriminate N.
  - injection E as -> E. inversion Hy; inversion Hi; subst.
    destruct (IH items) as [-> ->]; auto.
Qed.

(** ** What the generator can have yielded *)

(** On a queue that was created unfinished, the generator has yielded no
    more than what was enqueued before the first [finish]. *)
Lemma step_bounded (acts : list action) (c : coroutine) (r : request) :
  consistent false acts r ->
  length (yielded r) <= length (before_finish (history r)) ->
  length (yielded (step c r)) <= length (before_finish (history (step c r))).
Proof.
  intros [Hh Hf Hi He Hr] B. destruct c; step_cases r.
  - destruct p as [|a p]; simpl; [exact B|].
    rewrite before_finish_snoc, length_app. lia.
  - destruct g as [| |c']; simpl; try exact B; [|destruct p; exact B].
    destruct q as [|item q]; simpl; [exact B|].
    destruct (is_None item && f) eqn:E; simpl; [exact B|].
    rewrite length_app. simpl.
    destruct (Nat.eq_dec (length y) (length (before_finish h))) as [L|L];
      [exfalso|lia].
    unfold taken, ended in Hi. simpl in Hi.
    rewrite enqueued_split in Hi. symmetry in Hi.
    destruct (app_same_length _ _ _ _ L Hi) as [_ F].
    destruct (existsb is_finish h) eqn:X.
    + destruct (from_finish_some h X) as [l F']. rewrite F' in F.
      injection F as -> _. subst f. discriminate E.
    + rewrite (from_finish_none h X) in F. discriminate F.
Qed.

Lemma run_bounded (acts : list action) (schedule : list coroutine)
    (r : request) :
  consistent false acts r ->
  length (yielded r) <= length (before_finish (history r)) ->
  length (yielded (run schedule r))
  <= length (before_finish (history (run schedule r))).
Proof.
  revert r. induction schedule as [|c s IH]; intros r H B; [exact B|].
  simpl. apply IH; [apply step_consistent, H | eapply step_bounded; eauto].
Qed.

(** On a queue whose flag is already set, the generator never yields
    [None]. *)
Lemma step_not_None (acts : list action) (c : coroutine) (r : request) :
  consistent true acts r ->
  Forall not_None (yielded r) -> Forall not_None (yielded (step c r)).
Proof.
  intros [Hh Hf Hi He Hr] B. destruct c; step_cases r.
  - destruct p; exact B.
  - destruct g as [| |c']; simpl; try exact B; [|destruct p; exact B].
    destruct q as [|item q]; simpl; [exact B|].
    subst f. rewrite andb_true_r.
    destruct (is_None item) eqn:E; simpl; [exact B|].
    apply Forall_app. split; [exact B|]. constructor; [exact E|constructor].
Qed.

Lemma run_not_None (acts : list action) (schedule : list coroutine)
    (r : request) :
  consistent true acts r ->
  Forall not_None (yielded r) -> Forall not_None (yielded (run schedule r)).
Proof.
  revert r. induction schedule as [|c s IH]; intros r H B; [exact B|].
  simpl. apply IH; [apply step_consistent, H | eapply step_not_None; eauto].
Qed.

(** Every item the generator has yielded was enqueued before the first
    [finish], in that order, when the task started on an empty queue whose
    flag was not set. *)
Lemma yielded_before_finish (acts : list action) (c : completion unit)
    (g : globals) (schedule : list coroutine) :
  StreamingQueue.queue (queue g) = [] ->
  StreamingQueue.finished (queue g) = false ->
  exists rest,
    before_finish acts = yielded (run schedule (task_of acts c g)) ++ rest.
Proof.
  intros Q F. set (r := run schedule (task_of acts c g)).
  pose proof (created_consistent acts c g Q) as C0. rewrite F in C0.
  assert (C : consistent false acts r) by apply run_consistent, C0.
  assert (B : length (yielded r) <= length (before_finish (history r)))
    by (eapply run_bounded; [exact C0 | simpl; lia]).
  pose proof (c_items _ _ _ C) as Hi. rewrite enqueued_split in Hi.
  symmetry in Hi. destruct (app_shorter _ _ _ _ Hi B) as [l E].
  destruct (before_finish_app (history r) (pending r)) as [l' E'].
  rewrite (c_history _ _ _ C) in E'.
  exists (l ++ l'). now rewrite E', E, app_assoc.
Qed.

(** ** A task that enqueues no [None] and calls [finish] last *)

Lemma before_finish_all (pre : list action) :
  existsb is_finish pre = false -> before_finish pre = enqueued pre.
Proof.
  intros X. rewrite enqueued_split, (from_finish_none pre X).
  now rewrite app_nil_r.
Qed.

Lemma before_finish_last (pre : list action) :
  existsb is_finish pre = false ->
  before_finish (pre ++ [AFinish]) = enqueued pre.
Proof.
  intros X. rewrite before_finish_snoc, orb_true_r, app_nil_r.
  now apply before_finish_all.
Qed.

Lemma Forall_prefix {A} (P : A -> Prop) (l a b : list A) :
  l = a ++ b -> Forall P l -> Forall P a.
Proof. intros -> H. now apply Forall_app in H. Qed.

Lemma yielded_no_None (acts pre : list action) (c : completion unit)
    (g : globals) (schedule : list coroutine) :
  finishes_last acts pre ->
  StreamingQueue.queue (queue g) = [] ->
  Forall not_None (yielded (run schedule (task_of acts c g))).
Proof.
  intros (-> & X & N) Q.
  destruct (StreamingQueue.finished (queue g)) eqn:F.
  - eapply run_not_None; [|constructor].
    rewrite <- F. now apply created_consistent.
  - destruct (yielded_before_finish (pre ++ [AFinish]) c g schedule Q F)
      as [rest E].
    rewrite (before_finish_last pre X) in E.
    eapply Forall_prefix; eauto.
Qed.

Lemma pending_suffix (h p pre : list action) :
  h ++ p = pre ++ [AFinish] -> p = [] \/ exists p', p = p' ++ [AFinish].
Proof.
  intros E. destruct p as [|a p]; [now left|right].
  destruct (@exists_last _ (a :: p)) as (p' & b & E'); [discriminate|].
  rewrite E', app_assoc in E. apply app_inj_tail in E as [_ ->]. eauto.
Qed.

(** The items such a task enqueues come out in order, and when the loop of
    [stream] has ended they have all come out, the queue is empty and the
    task is done. *)
Lemma drained (acts pre : list action) (c : completion unit) (g : globals)
    (schedule : list coroutine) :
  finishes_last acts pre ->
  StreamingQueue.queue (queue g) = [] ->
  let r := run schedule (task_of acts c g) in
  (exists rest, enqueued pre = yielded r ++ rest) /\
  (ended r = true ->
   yielded r = enqueued pre /\ pending r = [] /\
   queue (env r) = {| StreamingQueue.finished := true;
                      StreamingQueue.queue := [] |}).
Proof.
  intros FL Q r.
  pose proof (yielded_no_None acts pre c g schedule FL Q) as Ny.
  destruct FL as (-> & X & N). fold r in Ny.
  assert (C : consistent (StreamingQueue.finished (queue g))
                (pre ++ [AFinish]) r)
    by now apply run_consistent, created_consistent.
  destruct C as [Hh Hf Hi He Hr].
  assert (E : (yielded r ++ taken r ++ StreamingQueue.queue (queue (env r)))
              ++ enqueued (pending r) = enqueued pre ++ [PNone]).
  { rewrite <- Hi, <- enqueued_app, Hh. apply enqueued_snoc. }
  split.
  - rewrite <- app_assoc in E. eapply prefix_before_None; eauto.
  - intros End. unfold taken in E. rewrite End in E.
    rewrite <- !app_assoc in E. simpl in E.
    destruct (first_None_unique _ _ _ _ Ny N E) as [Ey Eq].
    apply app_eq_nil in Eq as [Eq Ep].
    repeat split; auto.
    + destruct (pending_suffix _ _ _ Hh) as [P|[p' P]]; auto.
      rewrite P, enqueued_snoc in Ep. apply app_eq_nil in Ep as [_ Ep].
      discriminate Ep.
    + specialize (He End). revert He Eq.
      destruct (queue (env r)) as [f q]. simpl. now intros -> ->.
Qed.

(** ** Progress *)

Lemma run_cons (c : coroutine) (s : list coroutine) (r : request) :
  run (c :: s) r = run s (step c r).
Proof. reflexivity. Qed.

Lemma task_done (r : request) : pending r = [] -> step Task r = r.
Proof. intros P. simpl. unfold task_step. now rewrite P. Qed.

Lemma task_steps (m : nat) (r : request) :
  let r' := run (repeat Task (length (pending r) + m)) r in
  pending r' = [] /\ gen r' = gen r /\ yielded r' = yielded r
  /\ history r' = history r ++ pending r.
Proof.
  remember (pending r) as p eqn:P. revert r P.
  induction p as [|a p IH]; intros r P; simpl length; simpl Nat.add;
    cbv zeta.
  - assert (S : forall n, run (repeat Task n) r = r).
    { induction n as [|n IHn]; [reflexivity|].
      simpl repeat. now rewrite run_cons, task_done. }
    rewrite S, <- P, app_nil_r. auto.
  - simpl repeat. rewrite run_cons. simpl step. unfold task_step.
    rewrite <- P.
    match goal with |- context [run _ ?r1] =>
      destruct (IH r1 eq_refl) as (I1 & I2 & I3 & I4) end.
    cbv zeta in *. simpl in *. rewrite I1, I2, I3, I4, <- app_assoc. auto.
Qed.

Lemma returned_stays (n : nat) (r : request) (c : completion unit) :
  gen r = Returned c -> run (repeat Generator n) r = r.
Proof.
  intros G. induction n as [|n IH]; [reflexivity|].
  simpl repeat. rewrite run_cons. simpl step. unfold stream_with_task.
  rewrite G. exact IH.
Qed.

(** With the task done and the flag set, the generator yields what stands
    before the first [None] of the queue, removes that [None], and returns
    what the task returned. *)
Lemma generator_drains (items t : list pyval) (m : nat) (tok : option string)
    (c : completion unit) (h : list action) (y : list pyval) :
  Forall not_None items ->
  run (repeat Generator (length items + 2 + m))
      {| env := {| queue := {| StreamingQueue.finished := true;
                               StreamingQueue.queue := items ++ PNone :: t |};
                   access_token := tok |};
         pending := []; task_outcome := c; history := h;
         gen := Draining; yielded := y |}
  = {| env := {| queue := {| StreamingQueue.finished := true;
                             StreamingQueue.queue := t |};
                 access_token := tok |};
       pending := []; task_outcome := c; history := h;
       gen := Returned c; yielded := y ++ items |}.
Proof.
  revert y. induction items as [|v items IH]; intros y N.
  - simpl length. simpl Nat.add. simpl repeat. rewrite !run_cons.
    simpl. rewrite app_nil_r. now apply returned_stays with (c := c).
  - inversion N as [|? ? Nv N']; subst.
    simpl length. simpl Nat.add. simpl repeat. rewrite run_cons.
    simpl step. unfold stream_with_task, StreamingQueue.stream. simpl.
    rewrite Nv. simpl. unfold with_queue. simpl.
    rewrite (IH (y ++ [v]) N'), <- app_assoc. reflexivity.
Qed.

Lemma ended_returns (f0 : bool) (acts : list action) (m : nat) (r : request) :
  consistent f0 acts r -> ended r = true -> pending r = [] ->
  let r' := run (repeat Generator (S m)) r in
  gen r' = Returned (task_outcome r) /\ yielded r' = yielded r
  /\ env r' = env r.
Proof.
  intros C E P. cbv zeta. simpl repeat. rewrite run_cons.
  destruct r as [g p c h [| |c'] y]; simpl in E, P; try discriminate;
    subst p; simpl step; unfold stream_with_task; simpl.
  - now rewrite returned_stays with (c := c).
  - destruct (c_returned _ _ _ C c' eq_refl) as [_ ->]. simpl.
    now rewrite returned_stays with (c := c).
Qed.

Lemma step_task_outcome (c : coroutine) (r : request) :
  task_outcome (step c r) = task_outcome r.
Proof.
  destruct c; step_cases r.
  - now destruct p.
  - destruct g; [destruct q as [|item q]|destruct p|]; simpl; auto.
    now destruct (is_None item && f).
Qed.

Lemma run_task_outcome (schedule : list coroutine) (r : request) :
  task_outcome (run schedule r) = task_outcome r.
Proof.
  revert r. induction schedule as [|c s IH]; intros r; [reflexivity|].
  rewrite run_cons, IH. apply step_task_outcome.
Qed.

(** From wherever a schedule has led, letting the task run to its end and
    then the generator take its turns ends the request: the generator has
    yielded everything, the queue is empty, and the generator has returned
    what the task returned. *)
Lemma completes (acts pre : list action) (c : completion unit) (g : globals)
    (schedule : list coroutine) :
  finishes_last acts pre ->
  StreamingQueue.queue (queue g) = [] ->
  let r := run (schedule ++ repeat Task (length acts)
                ++ repeat Generator (length (enqueued pre) + 2))
               (task_of acts c g) in
  gen r = Returned c /\ yielded r = enqueued pre /\
  queue (env r) = {| StreamingQueue.finished := true;
                     StreamingQueue.queue := [] |}.
Proof.
  intros FL Q. cbv zeta. rewrite app_assoc, run_app.
  set (s1 := schedule ++ repeat Task (length acts)).
  destruct (drained acts pre c g s1 FL Q) as [[rest Pre] Dr].
  pose proof (run_consistent _ acts s1 _ (created_consistent acts c g Q)) as C.
  pose proof (run_task_outcome s1 (task_of acts c g)) as Out.
  assert (P : pending (run s1 (task_of acts c g)) = []
              /\ history (run s1 (task_of acts c g)) = acts).
  { unfold s1. rewrite run_app.
    pose proof (run_consistent _ acts schedule _
                  (created_consistent acts c g Q)) as C0.
    pose proof (c_history _ _ _ C0) as Hh.
    set (r0 := run schedule (task_of acts c g)) in *.
    replace (length acts) with (length (pending r0) + length (history r0))
      by (rewrite <- Hh, length_app; lia).
    destruct (task_steps (length (history r0)) r0) as (T1 & _ & _ & T4).
    cbv zeta in *. now rewrite T1, T4. }
  destruct P as [P H]. set (r1 := run s1 (task_of acts c g)) in *.
  destruct (ended r1) eqn:End.
  - destruct (Dr eq_refl) as (Y & _ & Qr).
    replace (length (enqueued pre) + 2) with (S (length (enqueued pre) + 1))
      by lia.
    destruct (ended_returns _ _ (length (enqueued pre) + 1) r1 C End P)
      as (G' & Y' & E').
    cbv zeta in *. rewrite G', Y', E', Out. auto.
  - destruct FL as (Ea & X & N).
    destruct C as [_ Hf Hi _ _]. unfold taken in Hi. rewrite End in Hi.
    rewrite H, Ea, enqueued_snoc, Pre, <- app_assoc in Hi.
    apply app_inv_head in Hi. simpl in Hi.
    rewrite H, Ea, finish_snoc, !orb_true_r in Hf.
    assert (Nr : Forall not_None rest)
      by (rewrite Pre in N; now apply Forall_app in N).
    replace (length (enqueued pre) + 2)
      with (length rest + 2 + length (yielded r1))
      by (rewrite Pre, length_app; lia).
    revert Nr Pre P Out Hf Hi End. clear.
    destruct r1 as [[[f q] tok] p c' h [| |cr] y]; simpl; try discriminate.
    intros Nr Pre -> -> -> <- _ .
    rewrite generator_drains by exact Nr. simpl. now rewrite Pre.
Qed.

(** ** StreamingQueue: the claims *)

Lemma finishes_last_puts (items : list pyval) :
  Forall not_None items ->
  finishes_last (puts_then_finish items) (map APut items).
Proof.
  intros N. repeat split.
  - apply finish_puts.
  - now rewrite enqueued_puts.
Qed.

(** C1 (as amended): for every finite sequence of items none of which is
    None, enqueued by [put] and followed by one [finish], and for every
    order in which the event loop runs the producer and the consumer, what
    the consumer of [stream()] has observed is always an initial part of
    those items, in FIFO order; when the stream has ended it has observed
    exactly those items, each once, and the queue is empty; and the stream
    does end once the producer has run and the consumer has taken its
    turns. *)
Theorem stream_yields_puts_in_order (items : list pyval)
    (c : completion unit) (schedule : list coroutine) :
  Forall not_None items ->
  let r := run schedule (task_of (puts_then_finish items) c loaded) in
  (exists rest, items = yielded r ++ rest) /\
  (ended r = true ->
   yielded r = items /\ StreamingQueue.queue (queue (env r)) = []) /\
  (let r' := run (repeat Task (length items + 1)
                  ++ repeat Generator (length items + 2)) r in
   gen r' = Returned c /\ yielded r' = items).
Proof.
  intros N r.
  pose proof (finishes_last_puts items N) as FL.
  destruct (drained _ _ c loaded schedule FL eq_refl) as [Pre Dr].
  rewrite enqueued_puts in Pre, Dr. fold r in Pre, Dr.
  split; [exact Pre|split].
  - intros E. destruct (Dr E) as (Y & _ & Q). split; [exact Y|].
    now rewrite Q.
  - intros r'.
    destruct (completes _ _ c loaded schedule FL eq_refl) as (G & Y & _).
    rewrite enqueued_puts in G, Y.
    unfold puts_then_finish in G at 1. unfold puts_then_finish in Y at 1.
    rewrite length_app, length_map, run_app in G, Y. simpl length in G, Y.
    auto.
Qed.

Lemma stream_yields_puts_in_order_witness :
  let r := run [Task; Generator; Task; Task; Generator]
               (task_of (puts_then_finish [PStr "a"; PStr "b"]) (Normal tt)
                        loaded) in
  (exists rest, [PStr "a"; PStr "b"] = yielded r ++ rest) /\
  (ended r = true ->
   yielded r = [PStr "a"; PStr "b"]
   /\ StreamingQueue.queue (queue (env r)) = []) /\
  (let r' := run (repeat Task 3 ++ repeat Generator 4) r in
   gen r' = Returned (Normal tt) /\ yielded r' = [PStr "a"; PStr "b"]).
Proof.
  apply (stream_yields_puts_in_order [PStr "a"; PStr "b"] (Normal tt)
           [Task; Generator; Task; Task; Generator]).
  repeat constructor.
Defined.

(** C1 (as stated) fails on an item that is None: when [None] and then a
    text have been put and [finish] has been called before the consumer
    takes its first turn, the consumer removes the [None] with the flag
    set and stops, having observed nothing; the text and the sentinel stay
    in the queue. *)
Lemma stream_stops_at_None_item :
  let r := run [Task; Task; Task; Generator; Generator]
               (task_of (puts_then_finish [PNone; PStr "b"]) (Normal tt)
                        loaded) in
  gen r = Returned (Normal tt) /\ yielded r = []
  /\ StreamingQueue.queue (queue (env r)) = [PStr "b"; PNone].
Proof. repeat split. Qed.

Lemma finish_in_history (h : list action) :
  existsb is_finish h = true -> In AFinish h.
Proof.
  intros X. apply existsb_exists in X as (a & I & F).
  now destruct a.
Qed.

Lemma ended_stays (more : list coroutine) (r : request) :
  ended r = true ->
  ended (run more r) = true /\ yielded (run more r) = yielded r.
Proof.
  revert r. induction more as [|c s IH]; intros r E; [auto|].
  rewrite run_cons.
  assert (S : ended (step c r) = true /\ yielded (step c r) = yielded r).
  { destruct c; step_cases r.
    - now destruct p.
    - destruct g; try discriminate; [destruct p|]; auto. }
  destruct S as [S1 S2]. destruct (IH _ S1) as [I1 I2].
  now rewrite I1, I2, S2.
Qed.

(** C4: [stream()] waits on an empty queue; on a queue that is not empty it
    stops precisely when the item it removes is None and the flag is set,
    so that a None removed while the flag is not set is yielded; and under
    every order of the producer's actions and the consumer's turns on a new
    queue, the consumer has not stopped unless [finish] has been called, and
    a turn on an empty queue leaves the consumer where it was. *)
Theorem stream_ends_only_after_finish :
  (forall self, StreamingQueue.queue self = [] ->
     StreamingQueue.stream self = StreamingQueue.Waiting) /\
  (forall self,
     (exists self', StreamingQueue.stream self = StreamingQueue.Break self')
     <-> (exists rest, StreamingQueue.queue self = PNone :: rest)
         /\ StreamingQueue.finished self = true) /\
  (forall self rest,
     StreamingQueue.queue self = PNone :: rest ->
     StreamingQueue.finished self = false ->
     StreamingQueue.stream self
     = StreamingQueue.Yield PNone
         {| StreamingQueue.finished := false;
            StreamingQueue.queue := rest |}) /\
  (forall acts c schedule,
     let r := run schedule (task_of acts c loaded) in
     (ended r = true -> In AFinish (history r)) /\
     (gen r = Draining -> StreamingQueue.queue (queue (env r)) = [] ->
      step Generator r = r)).
Proof.
  split; [|split; [|split]].
  - intros self Q. unfold StreamingQueue.stream. now rewrite Q.
  - intros [f [|item q]]; unfold StreamingQueue.stream; simpl; split.
    + intros [s H]. discriminate H.
    + intros [[rest H] _]. discriminate H.
    + intros [s H]. destruct item, f; try discriminate H. eauto.
    + intros [[rest H] ->]. injection H as -> _. simpl. eauto.
  - intros self rest Q F. unfold StreamingQueue.stream.
    rewrite Q, F. reflexivity.
  - intros acts c schedule r. split.
    + intros E.
      pose proof (run_consistent _ acts schedule _
                    (created_consistent acts c loaded eq_refl)) as C.
      pose proof (c_ended _ _ _ C E) as F. rewrite (c_flag _ _ _ C) in F.
      now apply finish_in_history.
    + intros G Q. simpl. unfold stream_with_task, StreamingQueue.stream.
      now rewrite G, Q.
Qed.

Lemma stream_ends_only_after_finish_witness :
  let r := run [Task; Generator; Generator; Task; Generator; Generator]
               (task_of [APut PNone; AFinish] (Normal tt) loaded) in
  yielded r = [PNone] /\ In AFinish (history r).
Proof.
  split; [reflexivity|].
  apply (proj1 (proj2 (proj2 (proj2 stream_ends_only_after_finish))
                  [APut PNone; AFinish] (Normal tt)
                  [Task; Generator; Generator; Task; Generator; Generator])).
  reflexivity.
Defined.

(** C10: under every order of the producer's actions and the consumer's
    turns on a new queue, whatever the producer does, what the consumer has
    observed is an initial part of the items that were put before the first
    [finish]: no item put after [finish] is observed.  When the stream has
    ended, what was enqueued is what was observed, then the None at which
    the stream stopped, then what is still in the queue; and the consumer
    observes nothing more, whatever runs afterwards. *)
Theorem put_after_finish_not_yielded (acts : list action)
    (c : completion unit) (schedule : list coroutine) :
  let r := run schedule (task_of acts c loaded) in
  (exists rest, before_finish acts = yielded r ++ rest) /\
  (ended r = true ->
   enqueued (history r)
   = yielded r ++ PNone :: StreamingQueue.queue (queue (env r))
   /\ forall more, yielded (run more r) = yielded r).
Proof.
  intros r. split.
  - apply yielded_before_finish; reflexivity.
  - intros E. split.
    + pose proof (run_consistent _ acts schedule _
                    (created_consistent acts c loaded eq_refl)) as C.
      pose proof (c_items _ _ _ C) as I. fold r in I.
      unfold taken in I. now rewrite E in I.
    + intros more. now apply ended_stays.
Qed.

Lemma put_after_finish_not_yielded_witness :
  let r := run [Task; Task; Task; Generator; Generator; Generator]
               (task_of [APut (PStr "a"); AFinish; APut (PStr "b")]
                        (Normal tt) loaded) in
  yielded r = [PStr "a"]
  /\ enqueued (history r)
     = yielded r ++ PNone :: StreamingQueue.queue (queue (env r))
  /\ StreamingQueue.queue (queue (env r)) = [PStr "b"].
Proof.
  split; [reflexivity|]. split; [|reflexivity].
  apply (proj2 (put_after_finish_not_yielded
                  [APut (PStr "a"); AFinish; APut (PStr "b")] (Normal tt)
                  [Task; Task; Task; Generator; Generator; Generator])).
  reflexivity.
Defined.

(** ** Keyword detection *)

Lemma append_assoc (a b c : string) : (a +++ b) +++ c = a +++ b +++ c.
Proof. induction a as [|x a IH]; simpl; [|rewrite IH]; reflexivity. Qed.

Lemma prefix_iff (sub s : string) :
  String.prefix sub s = true <-> exists after, s = sub +++ after.
Proof.
  revert s. induction sub as [|x sub IH]; intros s; simpl.
  - split; [intros _; now exists s | now destruct s].
  - destruct s as [|y s]; simpl.
    + split; [discriminate|]. intros [after E]. discriminate E.
    + destruct (ascii_dec x y) as [->|N].
      * rewrite IH. split; intros [after E]; exists after.
        -- now rewrite E.
        -- now injection E.
      * split; [discriminate|]. intros [after E]. injection E as E _.
        now elim N.
Qed.

Lemma str_in_nil (sub : string) :
  str_in sub "" = String.prefix sub "" || false.
Proof. reflexivity. Qed.

Lemma str_in_cons (sub : string) (y : ascii) (s : string) :
  str_in sub (String y s) = String.prefix sub (String y s) || str_in sub s.
Proof. reflexivity. Qed.

Lemma str_in_iff (sub s : string) :
  str_in sub s = true <-> exists before after, s = before +++ sub +++ after.
Proof.
  induction s as [|y s IH].
  - rewrite str_in_nil, orb_true_iff, prefix_iff. split.
    + intros [[after E]|F]; [|discriminate]. now exists "", after.
    + intros ([|z before] & after & E); [eauto|discriminate].
  - rewrite str_in_cons, orb_true_iff, prefix_iff, IH. split.
    + intros [[after E]|(before & after & E)].
      * now exists "", after.
      * exists (String y before), after. simpl. now rewrite E.
    + intros ([|z before] & after & E).
      * left. eauto.
      * right. injection E as _ E. eauto.
Qed.

Lemma lower_append (a b : string) : lower (a +++ b) = lower a +++ lower b.
Proof. induction a as [|x a IH]; simpl; [|rewrite IH]; reflexivity. Qed.

Lemma lower_split (s a b : string) :
  lower s = a +++ b ->
  exists x y, s = x +++ y /\ lower x = a /\ lower y = b.
Proof.
  revert s. induction a as [|c a IH]; intros s E.
  - now exists "", s.
  - destruct s as [|z s]; [discriminate|]. simpl in E.
    injection E as Ec E. destruct (IH s E) as (x & y & -> & Ex & Ey).
    exists (String z x), y. simpl. now rewrite Ec, Ex.
Qed.

Lemma lower_ascii_idem (c : ascii) : lower_ascii (lower_ascii c) = lower_ascii c.
Proof. destruct c as [[] [] [] [] [] [] [] []]; reflexivity. Qed.

Lemma lower_upper_ascii (c : ascii) : lower_ascii (upper_ascii c) = lower_ascii c.
Proof. destruct c as [[] [] [] [] [] [] [] []]; reflexivity. Qed.

Lemma lower_idem (s : string) : lower (lower s) = lower s.
Proof.
  induction s as [|c s IH]; simpl; [|rewrite IH, lower_ascii_idem];
    reflexivity.
Qed.

Lemma lower_upper (s : string) : lower (upper s) = lower s.
Proof.
  induction s as [|c s IH]; simpl; [|rewrite IH, lower_upper_ascii];
    reflexivity.
Qed.

Lemma str_in_lower_iff (keyword text : string) :
  str_in (lower keyword) (lower text) = true
  <-> occurs_ignoring_case keyword text.
Proof.
  rewrite str_in_iff. split.
  - intros (b & a & E).
    destruct (lower_split _ _ _ E) as (x & rest & -> & Ex & Er).
    destruct (lower_split _ _ _ Er) as (found & y & -> & Ef & Ey).
    now exists x, found, y.
  - intros (before & found & after & -> & Ef).
    exists (lower before), (lower after).
    now rewrite !lower_append, Ef.
Qed.

(** C7: the check answers true exactly when one of the configured keywords
    occurs somewhere in the response text with the case of letters ignored;
    texts that differ only in the case of letters get the same answer; and
    the check written out in the body of the Google script's task is the
    same check. *)
Theorem needs_authentication_iff (response_text : string) :
  (Github.needs_authentication response_text = true
   <-> exists keyword, In keyword Google.auth_keywords
                       /\ occurs_ignoring_case keyword response_text) /\
  (forall other, lower other = lower response_text ->
     Github.needs_authentication other
     = Github.needs_authentication response_text) /\
  Github.needs_authentication (upper response_text)
  = Github.needs_authentication response_text /\
  Google.needs_auth response_text
  = Github.needs_authentication response_text.
Proof.
  split; [|split; [|split]].
  - unfold Github.needs_authentication. fold Google.auth_keywords.
    rewrite existsb_exists. split.
    + intros (k & I & H). exists k. split; [exact I|].
      now apply str_in_lower_iff.
    + intros (k & I & H). exists k. split; [exact I|].
      now apply str_in_lower_iff.
  - intros other E. unfold Github.needs_authentication. now rewrite E.
  - unfold Github.needs_authentication. now rewrite lower_upper.
  - reflexivity.
Qed.

Lemma needs_authentication_iff_witness :
  Github.needs_authentication "Please LOGIN first" = true
  /\ Github.needs_authentication "Here are your events" = false.
Proof.
  split; [|reflexivity].
  apply (proj1 (needs_authentication_iff "Please LOGIN first")).
  exists "login". split; [simpl; tauto|].
  exists "Please ", "LOGIN", " first". split; reflexivity.
Defined.

(** ** The tools *)

(** C5: with the token slot of the provider unset (None or the empty
    text), each tool returns the dump of its auth_required marker, in which
    auth_required is True, and performs no action at all: no call over the
    network. *)
Theorem tools_without_token {rt : Runtime} (g : globals)
    (calendar : Google.calendar_api) (github : Github.github_api) :
  access_token g = None \/ access_token g = Some "" ->
  Google.get_calendar_events_today calendar g
  = ([], Normal (json_dumps Google.auth_required)) /\
  Github.inspect_github_repos github g
  = ([], Normal (json_dumps Github.auth_required)) /\
  dict_lookup "auth_required"
    (match Google.auth_required with PDict d => d | _ => [] end)
  = Some (PBool true) /\
  dict_lookup "auth_required"
    (match Github.auth_required with PDict d => d | _ => [] end)
  = Some (PBool true).
Proof.
  unfold Google.get_calendar_events_today, Github.inspect_github_repos.
  intros [-> | ->]; repeat split.
Qed.

Lemma tools_without_token_witness :
  Google.get_calendar_events_today (rt := sample_runtime)
    {| Google.today := "2025-01-01";
       Google.build := fun _ => inr tt;
       Google.events_list := fun _ _ _ => inr [] |} loaded
  = ([], Normal (json_dumps (Runtime := sample_runtime) Google.auth_required)).
Proof.
  apply (tools_without_token (rt := sample_runtime) loaded
           {| Google.today := "2025-01-01";
              Google.build := fun _ => inr tt;
              Google.events_list := fun _ _ _ => inr [] |}
           {| Github.get_user := fun _ _ =>
                inl {| exn_class_of := OtherException; exn_str := "" |};
              Github.get_search := fun _ _ =>
                inl {| exn_class_of := OtherException; exn_str := "" |} |}).
  left. reflexivity.
Defined.

Lemma trace_emit_bind {A} (a : action) (k : M A) :
  trace (emit a ;; k) = a :: trace k.
Proof. unfold bind, emit, trace. now destruct k. Qed.

Lemma trace_try_excepts {A} (body : M A)
    (clauses : list ((pyexn -> bool) * (pyexn -> M A))) :
  exists t, trace (try_excepts body clauses) = trace body ++ t.
Proof.
  destruct body as [t [a| |e]]; unfold try_excepts, trace; simpl;
    try (exists []; now rewrite app_nil_r).
  destruct (select_handler clauses e) as [[t' c]|]; simpl; eauto.
  exists []. now rewrite app_nil_r.
Qed.

(** With a token in the slot the tools do call out. *)
Lemma tools_with_token_call {rt : Runtime} (tok : string)
    (calendar : Google.calendar_api) (github : Github.github_api) :
  truthy (PStr tok) = true ->
  let g := {| queue := StreamingQueue.init; access_token := Some tok |} in
  In (ARequest "build(calendar, v3)" tok)
     (trace (Google.get_calendar_events_today calendar g)) /\
  In (ARequest "https://api.github.com/user" tok)
     (trace (Github.inspect_github_repos github g)).
Proof.
  intros T g.
  unfold Google.get_calendar_events_today, Github.inspect_github_repos.
  simpl access_token. simpl slot. rewrite T. simpl negb. cbv iota zeta.
  simpl token_text. split.
  - match goal with |- context [try_excepts ?b ?c] =>
      destruct (trace_try_excepts b c) as [t ->] end.
    rewrite trace_emit_bind. now left.
  - rewrite trace_emit_bind. right.
    match goal with |- context [try_excepts ?b ?c] =>
      destruct (trace_try_excepts b c) as [t ->] end.
    rewrite trace_emit_bind. now left.
Qed.

(** ** The task *)

Lemma for_each_google_urls (urls : list string) :
  for_each urls Google.on_auth_url
  = (url_actions "Authorization url: " urls, Normal tt).
Proof.
  induction urls as [|u l IH]; [reflexivity|].
  simpl. rewrite IH. reflexivity.
Qed.

Lemma for_each_github_urls (urls : list string) :
  for_each urls Github.on_auth_url
  = (url_actions "Authorization URL: " urls, Normal tt).
Proof.
  induction urls as [|u l IH]; [reflexivity|].
  simpl. rewrite IH. reflexivity.
Qed.

Lemma add_texts_pure {rt : Runtime} (content : list pyval) (text : string) :
  pure_text (Google.add_texts content text).
Proof.
  revert text. induction content as [|item l IH]; intros text; simpl.
  - left. eexists. reflexivity.
  - destruct item; auto.
    destruct (dict_lookup "text" d) as [[]|]; auto;
      right; eexists; split; reflexivity.
Qed.

Lemma response_text_of_pure {rt : Runtime} (r : response) :
  pure_text (Google.response_text_of r).
Proof.
  unfold Google.response_text_of.
  destruct (message r); try (left; eexists; reflexivity).
  destruct (dict_get d "content" (PList [])); try (left; eexists; reflexivity).
  apply add_texts_pure.
Qed.

Lemma join_texts_pure {rt : Runtime} (l : list pyval) (i : nat) :
  pure_text (Github.join_texts i l).
Proof.
  revert i. induction l as [|v l IH]; intros i; simpl.
  - left. eexists. reflexivity.
  - destruct v; try (right; eexists; split; reflexivity).
    destruct (IH (S i)) as [[t ->]|(e & -> & E)].
    + left. eexists. reflexivity.
    + right. eexists. split; [reflexivity|exact E].
Qed.

Lemma extract_response_text_pure {rt : Runtime} (r : response) :
  pure_text (Github.extract_response_text r).
Proof.
  unfold Github.extract_response_text.
  destruct (message r); try (left; eexists; reflexivity).
  destruct (dict_get d "content" (PList [])); try (left; eexists; reflexivity).
  apply join_texts_pure.
Qed.

Arguments String.append : simpl never.
Arguments Google.needs_auth : simpl never.
Arguments Github.needs_authentication : simpl never.

Ltac use_classes :=
  repeat match goal with
         | H : is_Exception ?e = _ |- context [is_Exception ?e] =>
             rewrite H; simpl
         end.

(** The ways through a task: the first call raises or returns; the text
    of the response is extracted or the extraction raises; authorization is
    needed or not; the exchange raises or returns; the retry raises or
    returns.  [pure] is the lemma on the extraction of the script, [needs]
    its check, [urls] the lemma on its [on_auth_url]. *)
Ltac task_cases o pure needs urls :=
  unfold agent, requires_access_token;
  let e := fresh "e" in let resp := fresh "resp" in
  let text := fresh "text" in let tok := fresh "tok" in
  destruct (first_call o) as [e|resp] eqn:?; simpl;
  [ destruct (is_Exception e) eqn:?; simpl
  | let H := fresh "Text" in let X := fresh "X" in
    destruct (pure resp) as [[text H]|(e & H & X)];
    rewrite H; simpl;
    [ destruct (needs text) eqn:?; simpl;
      [ rewrite urls; simpl;
        destruct (exchange o) as [e|tok] eqn:?; simpl;
        [ destruct (is_Exception e) eqn:?; simpl
        | destruct (retry_call o) as [e|?] eqn:?; simpl;
          [ destruct (is_Exception e) eqn:?; simpl | ] ]
      | ]
    | rewrite X; simpl ] ];
  use_classes.

Ltac google_cases o :=
  unfold Google.agent_task, Google.need_token_3lo_async,
    Google.need_token_3lo_async_body;
  task_cases o (@response_text_of_pure _) Google.needs_auth
             for_each_google_urls.

Ltac github_cases o :=
  unfold Github.agent_task, Github.need_token_3LO_async,
    Github.need_token_3LO_async_body;
  task_cases o (@extract_response_text_pure _) Github.needs_authentication
             for_each_github_urls.

Lemma url_actions_no_finish (wording : string) (urls : list string) :
  existsb is_finish (url_actions wording urls) = false.
Proof. induction urls as [|u l IH]; simpl; auto. Qed.

Lemma trace_finally (body : M unit) :
  trace (def (try_finally body (emit AFinish))) = trace body ++ [AFinish].
Proof. now destruct body as [t [[]| |e]]. Qed.

Lemma outcome_finally (body : M unit) :
  outcome (def (try_finally body (emit AFinish)))
  = match outcome body with Return => Normal tt | c => c end.
Proof. now destruct body as [t [[]| |e]]. Qed.

Ltac no_finish :=
  repeat (simpl; rewrite ?existsb_app, ?url_actions_no_finish); reflexivity.

Lemma google_finishes_last {rt : Runtime} (o : outcomes) (user_message : pyval) :
  exists pre, trace (Google.agent_task o user_message) = pre ++ [AFinish]
              /\ existsb is_finish pre = false.
Proof.
  unfold Google.agent_task at 1.
  match goal with |- context [try_finally ?b _] => exists (trace b) end.
  split; [apply trace_finally|]. unfold trace.
  google_cases o; no_finish.
Qed.

Lemma github_finishes_last {rt : Runtime} (o : outcomes) (user_message : pyval) :
  exists pre, trace (Github.agent_task o user_message) = pre ++ [AFinish]
              /\ existsb is_finish pre = false.
Proof.
  unfold Github.agent_task at 1.
  match goal with |- context [try_finally ?b _] => exists (trace b) end.
  split; [apply trace_finally|]. unfold trace.
  github_cases o; no_finish.
Qed.





(** ** Authorization *)









(** ** The two scripts side by side *)

Lemma url_items_reworded (urls : list string) :
  Forall2 reworded
    (flat_map enqueued_by (url_actions "Authorization url: " urls))
    (flat_map enqueued_by (url_actions "Authorization URL: " urls)).
Proof.
  induction urls as [|u l IH]; simpl; constructor; auto. constructor.
Qed.

Lemma same_items (l : list pyval) : Forall2 reworded l l.
Proof. induction l; constructor; auto. constructor. Qed.

Ltac side_by_side :=
  unfold enqueued; repeat (simpl; rewrite ?flat_map_app);
  repeat first [ apply Forall2_nil
               | apply url_items_reworded
               | apply Forall2_cons; [now constructor|]
               | apply Forall2_app ].

Lemma agree_without_handler {rt : Runtime} (o : outcomes) (user_message : pyval) :
  (forall resp, first_call o = inr resp ->
     Google.response_text_of resp = Github.extract_response_text resp) ->
  (forall resp text, first_call o = inr resp ->
     Github.extract_response_text resp = ([], Normal text) ->
     Github.needs_authentication text = true -> handler_entered o = false) ->
  Forall2 reworded (enqueued (trace (Google.agent_task o user_message)))
                   (enqueued (trace (Github.agent_task o user_message)))
  /\ outcome (Google.agent_task o user_message)
     = outcome (Github.agent_task o user_message).
Proof.
  intros A B.
  unfold Google.agent_task, Github.agent_task, agent,
    Google.need_token_3lo_async, Github.need_token_3LO_async,
    Google.need_token_3lo_async_body, Github.need_token_3LO_async_body,
    requires_access_token, trace, outcome.
  destruct (first_call o) as [e|resp] eqn:F; simpl.
  - destruct (is_Exception e); simpl; split; auto; side_by_side.
  - rewrite (A resp eq_refl).
    destruct (extract_response_text_pure resp) as [[text T]|(e & T & X)];
      rewrite T; simpl.
    + change (Google.needs_auth text) with (Github.needs_authentication text).
      destruct (Github.needs_authentication text) eqn:N; simpl.
      * rewrite for_each_google_urls, for_each_github_urls. simpl.
        specialize (B resp text eq_refl T N). unfold handler_entered in B.
        destruct (exchange o) as [e|tok]; simpl.
        -- rewrite B. simpl. rewrite B. simpl. split; auto; side_by_side.
        -- destruct (retry_call o) as [e|r]; simpl.
           ++ rewrite B. simpl. rewrite B. simpl. split; auto; side_by_side.
           ++ split; auto; side_by_side.
      * split; auto; side_by_side.
    + rewrite X. simpl. split; auto; side_by_side.
Qed.

Ltac flatten :=
  unfold enqueued; repeat (simpl; rewrite ?flat_map_app);
  rewrite <- ?app_assoc, ?app_nil_r; simpl.

Lemma prefix_with_handler {rt : Runtime} (o : outcomes) (user_message : pyval)
    (resp : response) (text : string) :
  first_call o = inr resp ->
  Google.response_text_of resp = Github.extract_response_text resp ->
  Github.extract_response_text resp = ([], Normal text) ->
  Github.needs_authentication text = true ->
  handler_entered o = true ->
  exists e g0 h0 rest,
    enqueued (trace (Google.agent_task o user_message))
    = g0 ++ PStr ("Authentication failed: " +++ exn_str e) :: rest ++ [PNone]
    /\ enqueued (trace (Github.agent_task o user_message))
       = h0 ++ [PStr ("Authentication failed: " +++ exn_str e); PNone]
    /\ Forall2 reworded g0 h0.
Proof.
  intros F A T N H.
  unfold Google.agent_task, Github.agent_task, agent,
    Google.need_token_3lo_async, Github.need_token_3LO_async,
    Google.need_token_3lo_async_body, Github.need_token_3LO_async_body,
    requires_access_token, trace.
  rewrite F. simpl. rewrite A, T. simpl.
  change (Google.needs_auth text) with (Github.needs_authentication text).
  rewrite N. simpl.
  rewrite for_each_google_urls, for_each_github_urls. simpl.
  unfold handler_entered in H.
  destruct (exchange o) as [e|tok]; simpl.
  - rewrite H. simpl.
    exists e,
      ([PStr "Begin agent execution";
        PStr "Authentication required for Google Calendar access. Starting authorization flow..."]
       ++ flat_map enqueued_by (url_actions "Authorization url: " (auth_urls o))),
      ([PStr "Begin agent execution";
        PStr "Authentication required for GitHub access. Starting authorization flow..."]
       ++ flat_map enqueued_by (url_actions "Authorization URL: " (auth_urls o))),
      [message resp; PStr "End agent execution"].
    split; [|split].
    + flatten. reflexivity.
    + flatten. reflexivity.
    + side_by_side.
  - destruct (retry_call o) as [e|r]; [|discriminate H]. simpl.
    rewrite H. simpl.
    exists e,
      ([PStr "Begin agent execution";
        PStr "Authentication required for Google Calendar access. Starting authorization flow..."]
       ++ flat_map enqueued_by (url_actions "Authorization url: " (auth_urls o))
       ++ [PStr "Authentication successful! Retrying calendar request..."]),
      ([PStr "Begin agent execution";
        PStr "Authentication required for GitHub access. Starting authorization flow..."]
       ++ flat_map enqueued_by (url_actions "Authorization URL: " (auth_urls o))
       ++ [PStr "Authentication successful! Retrying GitHub request..."]),
      [message resp; PStr "End agent execution"].
    split; [|split].
    + flatten. reflexivity.
    + flatten. reflexivity.
    + side_by_side.
Qed.

(** C9 (as amended): for any fixed outcomes of the agent calls and of the
    exchange on which the two scripts extract the same response text, the
    two tasks enqueue the same items up to the wording of the provider, and
    complete alike, whenever the handler of the inner [try] is not entered
    (no [Exception] from the exchange or from the retried call when
    authorization is needed); when it is entered, the items of the GitHub
    task up to and with Authentication failed: are, up to wording, the
    first items of the Google task, and both tasks end with the sentinel. *)
Theorem tasks_agree_up_to_wording {rt : Runtime} (o : outcomes)
    (user_message : pyval) :
  (forall resp, first_call o = inr resp ->
     Google.response_text_of resp = Github.extract_response_text resp) ->
  let g := Google.agent_task o user_message in
  let h := Github.agent_task o user_message in
  ((forall resp text, first_call o = inr resp ->
      Github.extract_response_text resp = ([], Normal text) ->
      Github.needs_authentication text = true -> handler_entered o = false) ->
   Forall2 reworded (enqueued (trace g)) (enqueued (trace h))
   /\ outcome g = outcome h) /\
  (forall resp text, first_call o = inr resp ->
     Github.extract_response_text resp = ([], Normal text) ->
     Github.needs_authentication text = true -> handler_entered o = true ->
     exists e g0 h0 rest,
       enqueued (trace g)
       = g0 ++ PStr ("Authentication failed: " +++ exn_str e)
               :: rest ++ [PNone]
       /\ enqueued (trace h)
          = h0 ++ [PStr ("Authentication failed: " +++ exn_str e); PNone]
       /\ Forall2 reworded g0 h0).
Proof.
  intros A g h. split.
  - intros B. now apply agree_without_handler.
  - intros resp text F T N H. apply prefix_with_handler with resp text; auto.
Qed.

Lemma tasks_agree_up_to_wording_witness :
  Forall2 reworded
    (enqueued (trace (Google.agent_task (rt := sample_runtime)
                        exchange_succeeds (PStr "events today"))))
    (enqueued (trace (Github.agent_task (rt := sample_runtime)
                        exchange_succeeds (PStr "events today"))))
  /\ outcome (Google.agent_task (rt := sample_runtime) exchange_succeeds
                (PStr "events today"))
     = outcome (Github.agent_task (rt := sample_runtime) exchange_succeeds
                  (PStr "events today")).
Proof.
  refine (proj1 (tasks_agree_up_to_wording (rt := sample_runtime)
                   exchange_succeeds (PStr "events today") _) _).
  - intros resp E. injection E as <-. reflexivity.
  - intros resp text _ _ _. reflexivity.
Defined.

(** C9 (as stated) fails after a failed exchange: the GitHub task returns
    from the handler and puts nothing more, the Google task goes on and puts
    the message of the first response and End agent execution. *)
Lemma tasks_differ_after_failed_exchange :
  enqueued (trace (Google.agent_task (rt := sample_runtime) exchange_fails
                     (PStr "events today")))
  = [PStr "Begin agent execution";
     PStr "Authentication required for Google Calendar access. Starting authorization flow...";
     PStr "Authorization url: https://example.com/authorize";
     PStr "Authentication failed: access denied";
     text_message "Please login first";
     PStr "End agent execution";
     PNone]
  /\ enqueued (trace (Github.agent_task (rt := sample_runtime) exchange_fails
                        (PStr "events today")))
     = [PStr "Begin agent execution";
        PStr "Authentication required for GitHub access. Starting authorization flow...";
        PStr "Authorization URL: https://example.com/authorize";
        PStr "Authentication failed: access denied";
        PNone].
Proof. split; reflexivity. Qed.

(** Both scripts read the same text from a message that is no dict, or
    whose content is a list of blocks with texts that are [str]. *)
Lemma texts_agree {rt : Runtime} (content : list pyval) (acc : string) :
  Forall text_block content ->
  exists text, Github.join_texts 0 (Github.texts content) = ([], Normal text)
               /\ Google.add_texts content acc = ([], Normal (acc +++ text)).
Proof.
  assert (J : forall l i j text,
             Github.join_texts i l = ([], Normal text) ->
             Github.join_texts j l = ([], Normal text)).
  { induction l as [|v l IH]; intros i j text; simpl; auto.
    destruct v; try discriminate.
    destruct (Github.join_texts (S i) l) as [t [tail| |e]] eqn:E;
      simpl; try discriminate.
    intros E'. injection E' as Et <-. rewrite app_nil_r in Et. subst t.
    now rewrite (IH _ (S j) _ E). }
  assert (R : forall a : string, a +++ "" = a)
    by (induction a as [|c a IH]; unfold String.append; fold String.append;
        [|rewrite IH]; reflexivity).
  intros F. revert acc. induction F as [|item l B F IH]; intros acc.
  - exists "". simpl. now rewrite R.
  - destruct item; simpl in *; try apply IH.
    destruct (dict_lookup "text" d) as [[]|] eqn:L; try contradiction;
      try apply IH.
    unfold dict_get. rewrite L.
    destruct (IH (acc +++ s)) as (text & E1 & E2).
    exists (s +++ text). simpl.
    rewrite (J _ 0 1 text E1). simpl. split; [reflexivity|].
    now rewrite E2, append_assoc.
Qed.

Lemma extraction_agrees {rt : Runtime} (r : response) :
  (forall d, message r = PDict d ->
     exists content, dict_get d "content" (PList []) = PList content
                     /\ Forall text_block content) ->
  Google.response_text_of r = Github.extract_response_text r.
Proof.
  intros W. unfold Google.response_text_of, Github.extract_response_text.
  destruct (message r) eqn:Em; try reflexivity.
  destruct (W d eq_refl) as (content & -> & F).
  destruct (texts_agree content "" F) as (text & E1 & E2).
  now rewrite E1, E2.
Qed.


(** ** The invocation *)

Lemma step_orderly (m : M unit) (c : coroutine) (r : request) :
  orderly m r -> orderly m (step c r).
Proof.
  intros [Hh Ho Hr He]. destruct c; step_cases r.
  - destruct p as [|a p]; [now constructor|].
    constructor; simpl; auto;
      try (now rewrite <- app_assoc);
      try (intros c' E; destruct (Hr c' E) as [E' _]; discriminate);
      try (intros E; specialize (He E); destruct a; simpl; auto).
  - destruct g as [| |c'].
    + destruct q as [|item q]; [now constructor|].
      destruct (is_None item && f) eqn:B; constructor; simpl; auto;
        try discriminate;
        try (intros _; now apply andb_true_iff in B).
    + destruct p; constructor; simpl; auto; try discriminate;
        try (intros c' E; injection E as <-; auto).
    + now constructor.
Qed.

Lemma run_orderly (m : M unit) (schedule : list coroutine) (r : request) :
  orderly m r -> orderly m (run schedule r).
Proof.
  revert r. induction schedule as [|c s IH]; intros r H; [exact H|].
  apply IH, step_orderly, H.
Qed.

Lemma created_orderly (m : M unit) (g : globals) : orderly m (create_task m g).
Proof. constructor; simpl; auto; discriminate. Qed.

Lemma orderly_returns (m : M unit) (r : request) :
  orderly m r -> returns_after_task m r.
Proof.
  intros [Hh Ho Hr He]. repeat split.
  - now destruct (Hr c H).
  - destruct (Hr c H) as [P _]. now rewrite P, app_nil_r in Hh.
  - destruct (Hr c H) as [_ ->]. exact Ho.
  - exact He.
  - intros G P. simpl. unfold stream_with_task. rewrite G.
    destruct (pending r); [now elim P|reflexivity].
  - intros G P. simpl. unfold stream_with_task. rewrite G, P. simpl.
    now rewrite Ho.
Qed.

(** C8: in every request of either script, under every order in which the
    event loop runs the task and the generator, [stream_with_task] has
    returned only when the task is done, all its actions performed; it then
    gives what the task gave, so that what the task raised is raised to the
    caller; it reaches [await task] only when its loop has ended, which
    happens only with the flag set; and it stays in [await task] while the
    task is not done. *)
Theorem stream_with_task_awaits_task {rt : Runtime} (o : outcomes)
    (payload : list (string * pyval)) (g : globals)
    (schedule : list coroutine) :
  (exists user_message,
     returns_after_task (Google.agent_task o user_message)
       (run schedule (Google.agent_invocation o payload g))) /\
  (exists user_message,
     returns_after_task (Github.agent_task o user_message)
       (run schedule (Github.agent_invocation o payload g))).
Proof.
  split; eexists; apply orderly_returns, run_orderly, created_orderly.
Qed.

Lemma stream_with_task_awaits_task_witness :
  let r := run [Task; Generator; Task; Task; Generator; Generator]
               (Google.agent_invocation (rt := sample_runtime)
                  agent_cancelled [("prompt", PStr "events today")] loaded) in
  gen r = Returned (Raise cancelled)
  /\ pending r = [] /\ In AFinish (history r)
  /\ yielded r = [PStr "Begin agent execution"].
Proof.
  intros r.
  destruct (proj1 (stream_with_task_awaits_task (rt := sample_runtime)
                     agent_cancelled [("prompt", PStr "events today")] loaded
                     [Task; Generator; Task; Task; Generator; Generator]))
    as [user_message (R & _)].
  destruct (R (Raise cancelled) eq_refl) as (P & _ & _).
  split; [reflexivity|]. split; [exact P|]. split; [|reflexivity].
  simpl. auto.
Defined.

(** ** The queue from one request to the next *)

Lemma url_items_not_None (wording : string) (urls : list string) :
  Forall not_None (flat_map enqueued_by (url_actions wording urls)).
Proof. induction urls as [|u l IH]; simpl; constructor; auto. reflexivity. Qed.

Ltac items_not_None H :=
  unfold enqueued; repeat (simpl; rewrite ?flat_map_app);
  repeat first [ apply Forall_nil
               | apply url_items_not_None
               | apply Forall_cons; [first [reflexivity | apply H; auto]|]
               | apply Forall_app; split ].

Lemma google_task_shape {rt : Runtime} (o : outcomes) (user_message : pyval) :
  messages_not_None o ->
  exists pre, finishes_last (trace (Google.agent_task o user_message)) pre.
Proof.
  intros H. unfold Google.agent_task at 1.
  match goal with |- context [try_finally ?b _] => exists (trace b) end.
  split; [apply trace_finally|]. unfold trace.
  split; google_cases o; try no_finish; items_not_None H.
Qed.

Lemma github_task_shape {rt : Runtime} (o : outcomes) (user_message : pyval) :
  messages_not_None o ->
  exists pre, finishes_last (trace (Github.agent_task o user_message)) pre.
Proof.
  intros H. unfold Github.agent_task at 1.
  match goal with |- context [try_finally ?b _] => exists (trace b) end.
  split; [apply trace_finally|]. unfold trace.
  split; github_cases o; try no_finish; items_not_None H.
Qed.

Lemma served_on_created (m : M unit) (pre : list action) (g : globals)
    (schedule : list coroutine) :
  finishes_last (trace m) pre ->
  StreamingQueue.queue (queue g) = [] ->
  served_on g schedule (create_task m g).
Proof.
  intros FL Q. split; [reflexivity|]. split.
  - intros E.
    destruct (drained _ _ (outcome m) g schedule FL Q) as [_ D].
    now destruct (D E) as (_ & _ & S).
  - intros r'. subst r'. simpl pending. simpl task_outcome.
    destruct (completes _ _ (outcome m) g schedule FL Q) as (G & _ & S).
    destruct FL as (E & _ & _).
    replace (length (enqueued (trace m)) + 1)
      with (length (enqueued pre) + 2)
      by (rewrite E, enqueued_snoc, length_app; simpl; lia).
    split; [exact G|exact S].
Qed.

(** C2 (as amended): the queue is created once, empty and not finished,
    when the module is loaded, and every request of either script works on
    that queue as it finds it.  A request that finds the queue empty, and in
    which no response of the agent has None as its message, is written by
    its task until [finish] and read until the sentinel; when its stream has
    ended the queue is empty again with its flag set, and that is how the
    next request finds it. *)
Theorem queue_shared_between_requests {rt : Runtime} (o : outcomes)
    (payload : list (string * pyval)) (g : globals)
    (schedule : list coroutine) :
  StreamingQueue.queue (queue g) = [] ->
  messages_not_None o ->
  queue loaded = StreamingQueue.init /\
  served_on g schedule (Google.agent_invocation o payload g) /\
  served_on g schedule (Github.agent_invocation o payload g).
Proof.
  intros Q N. split; [reflexivity|]. split.
  - destruct (google_task_shape o
                (dict_get payload "prompt"
                   (PStr "No prompt found in input, please guide customer to create a json payload with prompt key"))
                N) as [pre FL].
    now apply served_on_created with pre.
  - destruct (github_task_shape o
                (dict_get payload "prompt"
                   (PStr "No prompt found in input, please guide customer to create a JSON payload with prompt key"))
                N) as [pre FL].
    now apply served_on_created with pre.
Qed.

Lemma queue_shared_between_requests_witness :
  served_on loaded [Task; Generator; Task]
    (Github.agent_invocation (rt := sample_runtime) answers
       [("prompt", PStr "events today")] loaded).
Proof.
  apply (queue_shared_between_requests (rt := sample_runtime) answers
           [("prompt", PStr "events today")] loaded [Task; Generator; Task]).
  - reflexivity.
  - intros resp [E|E]; [|discriminate E]. injection E as <-. reflexivity.
Defined.

(** C2 (as stated) fails: no request creates a queue.  After a first
    request has been served to its end on the queue of the loaded module,
    the second request starts on that same queue, whose flag is set. *)
Lemma second_request_finds_flag_set :
  let first := Google.agent_invocation (rt := sample_runtime) answers
                 [("prompt", PStr "events today")] loaded in
  let after := run (task_first (pending first)) first in
  let second := Google.agent_invocation (rt := sample_runtime) answers
                  [("prompt", PStr "events tomorrow")] (env after) in
  gen after = Returned (Normal tt)
  /\ queue (env second)
     = {| StreamingQueue.finished := true; StreamingQueue.queue := [] |}
  /\ StreamingQueue.init
     = {| StreamingQueue.finished := false; StreamingQueue.queue := [] |}.
Proof. repeat split. Qed.

(** ** Scenarios *)

(** Two puts and a finish: the consumer yields the two items and stops; the
    sentinel is not among them. *)
Example two_puts_then_finish :
  let r := run (task_first (puts_then_finish [PStr "a"; PStr "b"]))
               (task_of (puts_then_finish [PStr "a"; PStr "b"]) (Normal tt)
                        loaded) in
  gen r = Returned (Normal tt) /\ yielded r = [PStr "a"; PStr "b"].
Proof. split; reflexivity. Qed.

(** A finish without a put: nothing is yielded and the stream ends. *)
Example finish_alone :
  let r := run [Task; Generator; Generator]
               (task_of (puts_then_finish []) (Normal tt) loaded) in
  gen r = Returned (Normal tt) /\ yielded r = [].
Proof. split; reflexivity. Qed.

(** A request without a token, in which the exchange succeeds. *)
Example request_with_authorization :
  let first := Google.agent_invocation (rt := sample_runtime)
                 exchange_succeeds [("prompt", PStr "show today's events")]
                 loaded in
  let r := run (task_first (pending first)) first in
  gen r = Returned (Normal tt)
  /\ yielded r
     = [PStr "Begin agent execution";
        PStr "Authentication required for Google Calendar access. Starting authorization flow...";
        PStr "Authorization url: https://example.com/authorize";
        PStr "Authentication successful! Retrying calendar request...";
        text_message "Your events";
        PStr "End agent execution"]
  /\ access_token (env r) = Some "token".
Proof. repeat split. Qed.

(** On a message whose content is no list the two scripts read different
    texts, and then do different things. *)
Example tasks_differ_on_content_that_is_no_list :
  let o := {| first_call :=
                inr {| message := PDict [("content", PStr "please login")] |};
              auth_urls := [];
              exchange := inr "token";
              retry_call := inr {| message := text_message "Your events" |} |} in
  enqueued (trace (Google.agent_task (rt := sample_runtime) o (PStr "events")))
  = [PStr "Begin agent execution";
     PDict [("content", PStr "please login")];
     PStr "End agent execution";
     PNone]
  /\ enqueued (trace (Github.agent_task (rt := sample_runtime) o (PStr "events")))
     = [PStr "Begin agent execution";
        PStr "Authentication required for GitHub access. Starting authorization flow...";
        PStr "Authentication successful! Retrying GitHub request...";
        text_message "Your events";
        PStr "End agent execution";
        PNone].
Proof. split; reflexivity. Qed.

(** A message that is None, in a request served after the task has run to
    its end: the stream stops at the message, and what the task put after
    it is left in the queue for the next request. *)
Example message_None_is_left_behind :
  let o := {| first_call := inr {| message := PNone |};
              auth_urls := [];
              exchange := inl sample_error;
              retry_call := inl sample_error |} in
  let first := Github.agent_invocation (rt := sample_runtime) o [] loaded in
  let r := run (task_first (pending first)) first in
  gen r = Returned (Normal tt)
  /\ yielded r = [PStr "Begin agent execution"]
  /\ StreamingQueue.queue (queue (env r))
     = [PStr "End agent execution"; PNone].
Proof. repeat split. Qed.


(** * Further properties of the two scripts *)

(** ** The calendar tool *)

(** X1: the calendar tool lets no [Exception] out.  With a token in the
    slot, an [Exception] raised by [build] or by the listing of the events
    becomes the dump of an object with the text of the exception under error
    and no events; after a failed [build] the events are not asked for. *)
Theorem calendar_tool_reports_errors {rt : Runtime}
    (api : Google.calendar_api) (g : globals) :
  ((exists s, outcome (Google.get_calendar_events_today api g) = Normal s)
   \/ (exists e, outcome (Google.get_calendar_events_today api g) = Raise e
                  /\ is_Exception e = false)) /\
  (forall token e,
     access_token g = Some token -> truthy (PStr token) = true ->
     is_Exception e = true ->
     (Google.build api token = inl e ->
      Google.get_calendar_events_today api g
      = ([ARequest "build(calendar, v3)" token], Normal (error_report e))) /\
     (Google.build api token = inr tt ->
      Google.events_list api token
        (Google.today api +++ "T00:00:00-05:00")
        (Google.today api +++ "T23:59:59-05:00") = inl e ->
      Google.get_calendar_events_today api g
      = ([ARequest "build(calendar, v3)" token;
          ARequest "events().list(calendarId=primary).execute()" token],
         Normal (error_report e)))).
Proof.
  split.
  - unfold Google.get_calendar_events_today, outcome.
    destruct (truthy (slot (access_token g))); simpl; [|eauto].
    destruct (Google.build api (token_text (access_token g))) as [e|[]]; simpl.
    + unfold Google.error_result.
      destruct (is_HttpError e) eqn:H1; simpl; [eauto|].
      destruct (is_Exception e) eqn:H2; simpl; eauto.
    + destruct (Google.events_list api _ _ _) as [e|d]; simpl.
      * destruct (is_HttpError e) eqn:H1; simpl; [eauto|].
        destruct (is_Exception e) eqn:H2; simpl; eauto.
      * destruct (truthy (dict_get d "items" (PList []))); simpl; eauto.
  - intros token e T Tr X. unfold Google.get_calendar_events_today.
    rewrite T. simpl slot. simpl token_text. rewrite Tr. simpl negb. cbv iota.
    split.
    + intros B. rewrite B. simpl. unfold Google.error_result, error_report.
      destruct (is_HttpError e); simpl; [reflexivity|].
      rewrite X. reflexivity.
    + intros B L. rewrite B. simpl. rewrite L. simpl.
      unfold Google.error_result, error_report.
      destruct (is_HttpError e); simpl; [reflexivity|].
      rewrite X. reflexivity.
Qed.

Lemma calendar_tool_reports_errors_witness :
  Google.get_calendar_events_today (rt := sample_runtime) calendar_down
    with_token
  = ([ARequest "build(calendar, v3)" "token";
      ARequest "events().list(calendarId=primary).execute()" "token"],
     Normal (error_report (rt := sample_runtime)
               {| exn_class_of := HttpError; exn_str := "503" |})).
Proof.
  apply (proj2 (calendar_tool_reports_errors (rt := sample_runtime)
                  calendar_down with_token) "token"
           {| exn_class_of := HttpError; exn_str := "503" |});
    reflexivity.
Defined.

(** X2: with a token in the slot and the calendar answering, the tool
    returns the dump of an object whose events are the items of the answer;
    when the answer has no items, or items that are empty, the events are
    the empty list. *)
Theorem calendar_tool_returns_events {rt : Runtime}
    (api : Google.calendar_api) (g : globals) (token : string)
    (events_result : list (string * pyval)) :
  access_token g = Some token -> truthy (PStr token) = true ->
  Google.build api token = inr tt ->
  Google.events_list api token
    (Google.today api +++ "T00:00:00-05:00")
    (Google.today api +++ "T23:59:59-05:00") = inr events_result ->
  let requests := [ARequest "build(calendar, v3)" token;
                   ARequest "events().list(calendarId=primary).execute()"
                            token] in
  (dict_lookup "items" events_result = None
   \/ dict_lookup "items" events_result = Some (PList []) ->
   Google.get_calendar_events_today api g
   = (requests, Normal (json_dumps (PDict [("events", PList [])])))) /\
  (forall event events,
     dict_lookup "items" events_result = Some (PList (event :: events)) ->
     Google.get_calendar_events_today api g
     = (requests,
        Normal (json_dumps (PDict [("events", PList (event :: events))])))).
Proof.
  intros T Tr B L requests. unfold Google.get_calendar_events_today.
  rewrite T. simpl slot. simpl token_text. rewrite Tr. simpl negb. cbv iota.
  rewrite B. simpl. rewrite L. simpl. unfold dict_get. split.
  - intros [-> | ->]; reflexivity.
  - intros event events ->. reflexivity.
Qed.

Lemma calendar_tool_returns_events_witness :
  Google.get_calendar_events_today (rt := sample_runtime) one_event with_token
  = ([ARequest "build(calendar, v3)" "token";
      ARequest "events().list(calendarId=primary).execute()" "token"],
     Normal (json_dumps (Runtime := sample_runtime)
               (PDict [("events",
                        PList [PDict [("summary", PStr "Review")]])]))).
Proof.
  apply (proj2 (calendar_tool_returns_events (rt := sample_runtime) one_event
                  with_token "token"
                  [("items", PList [PDict [("summary", PStr "Review")]])]
                  eq_refl eq_refl eq_refl eq_refl)).
  reflexivity.
Defined.

(** ** The GitHub tool *)

Arguments str_take : simpl never.
Arguments Github.status_error {A} _.
Arguments Github.json {A} _.

Ltac raised :=
  try match goal with
      | |- context [is_HTTPStatusError ?e] =>
          is_var e; destruct e as [[| ? ? | |] ?]; simpl
      end.

(** The ways through the tool: each of the two requests raises, or gives a
    response whose status raises or not and whose body raises or parses. *)
Ltac github_calls api :=
  unfold Github.raise_for_status; simpl;
  destruct (Github.get_user api _ _) as [?|[[?|] [?|[login]]]]; simpl;
  raised;
  try match goal with
      | |- context [Github.get_search api ?u ?t] =>
          destruct (Github.get_search api u t)
            as [?|[[?|] [?|[[[|repo repos]|]]]]];
          simpl; raised
      end.





(** X5: whatever the services answer, a tool only prints and calls out
    with the token that is in the slot, at most twice: it puts nothing on
    the queue and never assigns the token. *)
Theorem tools_leave_the_globals {rt : Runtime} (calendar : Google.calendar_api)
    (github : Github.github_api) (g : globals) :
  (Forall (tool_action g)
     (trace (Google.get_calendar_events_today calendar g))
   /\ count is_request (trace (Google.get_calendar_events_today calendar g))
      <= 2) /\
  (Forall (tool_action g) (trace (Github.inspect_github_repos github g))
   /\ count is_request (trace (Github.inspect_github_repos github g)) <= 2).
Proof.
  unfold Google.get_calendar_events_today, Github.inspect_github_repos,
    trace, count.
  destruct g as [q [token|]]; simpl access_token; simpl slot;
    [|simpl; auto].
  simpl token_text.
  destruct (truthy (PStr token)); simpl negb; cbv iota; [|simpl; auto].
  split.
  - destruct (Google.build calendar token) as [?|[]]; simpl;
      [|destruct (Google.events_list calendar _ _ _) as [?|d]; simpl;
        [|destruct (truthy (dict_get d "items" (PList [])))]];
      raised;
      try match goal with
          | |- context [is_HttpError ?e] =>
              destruct e as [[| ? ? | |] ?]; simpl
          end;
      split; try lia; repeat constructor.
  - github_calls github; split; try lia; repeat constructor.
Qed.

(** ** The text of a response *)

Lemma append_empty (a : string) : a +++ "" = a.
Proof.
  induction a as [|c a IH]; unfold String.append; fold String.append;
    [|rewrite IH]; reflexivity.
Qed.

Lemma append_cons (c : ascii) (a b : string) :
  String c a +++ b = String c (a +++ b).
Proof. reflexivity. Qed.

Lemma add_texts_content {rt : Runtime} (content : list pyval) (acc : string) :
  Forall text_block content ->
  Google.add_texts content acc = ([], Normal (acc +++ content_text content)).
Proof.
  intros F. revert acc. induction F as [|item l B F IH]; intros acc.
  - simpl. unfold content_text. simpl. now rewrite append_empty.
  - unfold content_text in *. simpl map. simpl fold_right.
    destruct item; simpl in *;
      try (rewrite IH; reflexivity).
    destruct (dict_lookup "text" d) as [[]|]; try contradiction;
      rewrite IH; try reflexivity.
    now rewrite append_assoc.
Qed.

Lemma join_texts_content {rt : Runtime} (content : list pyval) (i : nat) :
  Forall text_block content ->
  Github.join_texts i (Github.texts content)
  = ([], Normal (content_text content)).
Proof.
  intros F. revert i. induction F as [|item l B F IH]; intros i.
  - reflexivity.
  - unfold content_text in *. simpl map. simpl fold_right.
    destruct item; simpl in *; try apply IH.
    destruct (dict_lookup "text" d) as [[]|] eqn:L; try contradiction;
      try apply IH.
    unfold dict_get. rewrite L. simpl. now rewrite IH.
Qed.

(** X6: both scripts read the same text from a response.  From a message
    that is a dict whose content is a list of blocks, each without a text
    or with a text that is a [str], they read the texts of the blocks one
    after the other, passing over blocks that are no dict or have no text;
    from a dict without content they read the empty text; from a message
    that is no dict they read [str] of the message. *)
Theorem response_text_is_content_text {rt : Runtime} (r : response) :
  (forall d content,
     message r = PDict d ->
     dict_get d "content" (PList []) = PList content ->
     Forall text_block content ->
     Google.response_text_of r = ([], Normal (content_text content))
     /\ Github.extract_response_text r
        = ([], Normal (content_text content))) /\
  (forall d, message r = PDict d -> dict_lookup "content" d = None ->
     Google.response_text_of r = ([], Normal "")
     /\ Github.extract_response_text r = ([], Normal "")) /\
  ((forall d, message r <> PDict d) ->
   Google.response_text_of r = ([], Normal (py_str (message r)))
   /\ Github.extract_response_text r = ([], Normal (py_str (message r)))).
Proof.
  unfold Google.response_text_of, Github.extract_response_text.
  split; [|split].
  - intros d content M C F. rewrite M, C.
    now rewrite add_texts_content, join_texts_content.
  - intros d M C. rewrite M. unfold dict_get. rewrite C. auto.
  - intros N. destruct (message r); auto. now elim (N d).
Qed.

Lemma response_text_is_content_text_witness :
  Google.response_text_of (rt := sample_runtime)
    {| message :=
         PDict [("content",
                 PList [PDict [("text", PStr "Please ")];
                        PDict [("toolUse", PStr "calendar")];
                        PStr "aside";
                        PDict [("text", PStr "login")]])] |}
  = ([], Normal "Please login")
  /\ Github.extract_response_text (rt := sample_runtime)
       {| message :=
            PDict [("content",
                    PList [PDict [("text", PStr "Please ")];
                           PDict [("toolUse", PStr "calendar")];
                           PStr "aside";
                           PDict [("text", PStr "login")]])] |}
     = ([], Normal "Please login").
Proof.
  apply (proj1 (response_text_is_content_text (rt := sample_runtime)
                  {| message :=
                       PDict [("content",
                               PList [PDict [("text", PStr "Please ")];
                                      PDict [("toolUse", PStr "calendar")];
                                      PStr "aside";
                                      PDict [("text", PStr "login")]])] |})
           [("content",
             PList [PDict [("text", PStr "Please ")];
                    PDict [("toolUse", PStr "calendar")];
                    PStr "aside";
                    PDict [("text", PStr "login")]])]
           [PDict [("text", PStr "Please ")];
            PDict [("toolUse", PStr "calendar")];
            PStr "aside";
            PDict [("text", PStr "login")]]
           eq_refl eq_refl).
  repeat constructor.
Defined.

Lemma texts_app (a b : list pyval) :
  Github.texts (a ++ b) = Github.texts a ++ Github.texts b.
Proof.
  induction a as [|item a IH]; [reflexivity|].
  destruct item; simpl; auto.
  destruct (dict_lookup "text" d); simpl; now rewrite ?IH.
Qed.

Lemma texts_of_text_blocks (good : list pyval) :
  Forall text_block good ->
  Forall (fun v => exists s, v = PStr s) (Github.texts good).
Proof.
  induction 1 as [|item l B F IH]; [constructor|].
  destruct item; simpl in *; auto.
  destruct (dict_lookup "text" d) as [[]|] eqn:L; try contradiction; auto.
  unfold dict_get. rewrite L. constructor; eauto.
Qed.

Lemma join_texts_raises {rt : Runtime} (strs rest : list pyval) (v : pyval)
    (i : nat) :
  Forall (fun v => exists s, v = PStr s) strs ->
  (forall s, v <> PStr s) ->
  Github.join_texts i (strs ++ v :: rest)
  = ([], Raise (type_error (join_error (i + length strs) v))).
Proof.
  intros F N. revert i. induction F as [|x l [s ->] F IH]; intros i.
  - simpl. rewrite Nat.add_0_r. destruct v; try reflexivity.
    now elim (N s).
  - simpl. rewrite IH. simpl. now rewrite Nat.add_succ_r.
Qed.

(** X7: when the content of the message is a list in which a block has a
    text that is no [str], and the blocks before it have none or a [str],
    the extraction of the text raises a TypeError in both scripts: in the
    Google script the one of adding that text to a [str], in the GitHub
    script the one of joining it as the item after the texts of the blocks
    before it. *)
Theorem text_that_is_no_str_raises {rt : Runtime} (r : response)
    (d block : list (string * pyval)) (good rest : list pyval) (v : pyval) :
  message r = PDict d ->
  dict_get d "content" (PList []) = PList (good ++ PDict block :: rest) ->
  Forall text_block good ->
  dict_lookup "text" block = Some v ->
  (forall s, v <> PStr s) ->
  Google.response_text_of r = ([], Raise (type_error (concat_error v)))
  /\ Github.extract_response_text r
     = ([], Raise (type_error
                     (join_error (length (Github.texts good)) v))).
Proof.
  intros M C F L N.
  unfold Google.response_text_of, Github.extract_response_text.
  rewrite M, C. split.
  - generalize "". clear C. induction F as [|item l B F IH]; intros acc.
    + simpl. rewrite L. destruct v; try reflexivity. now elim (N s).
    + destruct item; simpl in *; auto.
      destruct (dict_lookup "text" d0) as [[]|]; try contradiction; auto.
  - rewrite texts_app. simpl. rewrite L. unfold dict_get. rewrite L.
    now rewrite join_texts_raises by (auto using texts_of_text_blocks).
Qed.

Lemma text_that_is_no_str_raises_witness :
  Github.extract_response_text (rt := sample_runtime)
    {| message :=
         PDict [("content",
                 PList [PDict [("text", PStr "a")];
                        PDict [("text", PInt 7)]])] |}
  = ([], Raise (type_error
                  "sequence item 1: expected str instance, int found")).
Proof.
  assert (F : Forall text_block [PDict [("text", PStr "a")]])
    by (repeat constructor).
  assert (N : forall s, PInt 7 <> PStr s) by discriminate.
  exact (proj2 (text_that_is_no_str_raises (rt := sample_runtime)
                  {| message :=
                       PDict [("content",
                               PList [PDict [("text", PStr "a")];
                                      PDict [("text", PInt 7)]])] |}
                  [("content",
                    PList [PDict [("text", PStr "a")];
                           PDict [("text", PInt 7)]])]
                  [("text", PInt 7)] [PDict [("text", PStr "a")]] []
                  (PInt 7) eq_refl eq_refl F eq_refl N)).
Defined.

(** ** The keywords *)

Lemma str_in_trans (a b s : string) :
  str_in a b = true -> str_in b s = true -> str_in a s = true.
Proof.
  rewrite !str_in_iff. intros (p & q & ->) (u & v & ->).
  exists (u +++ p), (q +++ v). now rewrite !append_assoc.
Qed.

(** X8: of the eleven configured keywords six decide the check, the five
    others containing auth: the check answers true exactly when the
    lowered text contains auth, sign in, login, access, permission or
    credential.  A text that makes the check true still does with any text
    before and after it; the empty text makes it false. *)
Theorem six_keywords_decide (response_text : string) :
  Github.needs_authentication response_text
  = existsb (fun keyword => str_in keyword (lower response_text))
            deciding_keywords /\
  Google.needs_auth response_text
  = existsb (fun keyword => str_in keyword (lower response_text))
            deciding_keywords /\
  (forall before after,
     Github.needs_authentication response_text = true ->
     Github.needs_authentication (before +++ response_text +++ after) = true)
  /\ Github.needs_authentication "" = false.
Proof.
  assert (E : Github.needs_authentication response_text
              = existsb (fun keyword => str_in keyword (lower response_text))
                        deciding_keywords).
  { apply Bool.eq_iff_eq_true. unfold Github.needs_authentication.
    rewrite !existsb_exists. split.
    - intros (k & I & H). simpl in I.
      repeat (destruct I as [<-|I];
              [first [ exists "auth"; split; [simpl; tauto|];
                       eapply str_in_trans; [|exact H]; reflexivity
                     | eexists; split; [|exact H]; simpl; tauto ]|]).
      contradiction.
    - intros (k & I & H). simpl in I.
      repeat (destruct I as [<-|I];
              [match type of H with
               | str_in ?k _ = true =>
                   exists k; split; [simpl; tauto|exact H]
               end|]).
      contradiction. }
  split; [exact E|]. split; [exact E|]. split; [|reflexivity].
  intros before after. unfold Github.needs_authentication.
  rewrite !existsb_exists. intros (k & I & H). exists k. split; [exact I|].
  rewrite !lower_append. apply str_in_iff in H as (p & q & ->).
  apply str_in_iff. exists (lower before +++ p), (q +++ lower after).
  now rewrite !append_assoc.
Qed.

Lemma six_keywords_decide_witness :
  Github.needs_authentication
    ("Note: " +++ "The AUTHOR of the book" +++ " (1984)") = true.
Proof.
  apply (proj1 (proj2 (proj2 (six_keywords_decide "The AUTHOR of the book")))).
  reflexivity.
Defined.

(** ** The ways through a task *)

Ltac run_task F T N :=
  unfold Google.agent_task, Github.agent_task, agent,
    Google.need_token_3lo_async, Github.need_token_3LO_async,
    Google.need_token_3lo_async_body, Github.need_token_3LO_async_body,
    requires_access_token;
  rewrite F; simpl; rewrite T; simpl; rewrite N; simpl;
  rewrite ?for_each_google_urls, ?for_each_github_urls; simpl.

(** X9: when the text of the first response holds no keyword, each task
    puts Begin agent execution, the message of the response and End agent
    execution, and finishes: it has called the agent once, and neither
    called the token function nor assigned the token. *)
Theorem task_without_authorization {rt : Runtime} (o : outcomes)
    (user_message : pyval) (resp : response) (text : string) :
  first_call o = inr resp ->
  Github.extract_response_text resp = ([], Normal text) ->
  Google.response_text_of resp = ([], Normal text) ->
  Github.needs_authentication text = false ->
  let done := ([APut (PStr "Begin agent execution");
                ACallAgent user_message;
                APut (message resp);
                APut (PStr "End agent execution");
                AFinish], Normal tt) in
  Google.agent_task o user_message = done
  /\ Github.agent_task o user_message = done.
Proof.
  intros F T T' N done. split.
  - change (Github.needs_authentication text) with (Google.needs_auth text)
      in N.
    run_task F T' N. reflexivity.
  - run_task F T N. reflexivity.
Qed.

Lemma task_without_authorization_witness :
  Github.agent_task (rt := sample_runtime) answers (PStr "events today")
  = ([APut (PStr "Begin agent execution");
      ACallAgent (PStr "events today");
      APut (text_message "Your events");
      APut (PStr "End agent execution");
      AFinish], Normal tt).
Proof.
  apply (task_without_authorization (rt := sample_runtime) answers
           (PStr "events today") {| message := text_message "Your events" |}
           "Your events");
    reflexivity.
Defined.

(** X10: when the text of the first response holds a keyword, the exchange
    returns a token and the retried call returns, each task assigns the
    token before it calls the agent again, and puts the message of the
    second response, not of the first, between the notice of success and
    End agent execution. *)
Theorem task_with_authorization {rt : Runtime} (o : outcomes)
    (user_message : pyval) (resp again : response) (text token : string) :
  first_call o = inr resp ->
  Github.extract_response_text resp = ([], Normal text) ->
  Google.response_text_of resp = ([], Normal text) ->
  Github.needs_authentication text = true ->
  exchange o = inr token ->
  retry_call o = inr again ->
  Google.agent_task o user_message
  = ([APut (PStr "Begin agent execution");
      ACallAgent user_message;
      APut (PStr "Authentication required for Google Calendar access. Starting authorization flow...");
      AOAuth]
     ++ url_actions "Authorization url: " (auth_urls o)
     ++ [ASetToken token; ASetToken token;
         APut (PStr "Authentication successful! Retrying calendar request...");
         ACallAgent user_message;
         APut (message again);
         APut (PStr "End agent execution");
         AFinish], Normal tt)
  /\ Github.agent_task o user_message
     = ([APut (PStr "Begin agent execution");
         ACallAgent user_message;
         APut (PStr "Authentication required for GitHub access. Starting authorization flow...");
         AOAuth]
        ++ url_actions "Authorization URL: " (auth_urls o)
        ++ [ASetToken token; ASetToken token;
            APut (PStr "Authentication successful! Retrying GitHub request...");
            ACallAgent user_message;
            APut (message again);
            APut (PStr "End agent execution");
            AFinish], Normal tt).
Proof.
  intros F T T' N E R. split.
  - change (Github.needs_authentication text) with (Google.needs_auth text)
      in N.
    run_task F T' N. rewrite E. simpl. rewrite R. simpl.
    now rewrite <- !app_assoc.
  - run_task F T N. rewrite E. simpl. rewrite R. simpl.
    now rewrite <- !app_assoc.
Qed.

Lemma task_with_authorization_witness :
  enqueued (trace (Github.agent_task (rt := sample_runtime) exchange_succeeds
                     (PStr "events today")))
  = [PStr "Begin agent execution";
     PStr "Authentication required for GitHub access. Starting authorization flow...";
     PStr "Authorization URL: https://example.com/authorize";
     PStr "Authentication successful! Retrying GitHub request...";
     text_message "Your events";
     PStr "End agent execution";
     PNone].
Proof.
  rewrite (proj2 (task_with_authorization (rt := sample_runtime)
                    exchange_succeeds (PStr "events today")
                    {| message := text_message "Please login first" |}
                    {| message := text_message "Your events" |}
                    "Please login first" "token"
                    eq_refl eq_refl eq_refl eq_refl eq_refl eq_refl)).
  reflexivity.
Defined.

(** X11: when the exchange returns a token and the retried call of the
    agent raises an [Exception], the handler of the authorization takes it:
    each task has assigned the token, and puts Authentication failed: with
    the text of the exception of the agent; the GitHub task then finishes,
    the Google task first puts the message of the first response and End
    agent execution. *)
Theorem failed_retry_reported_as_authentication {rt : Runtime} (o : outcomes)
    (user_message : pyval) (resp : response) (text token : string)
    (e : pyexn) :
  first_call o = inr resp ->
  Github.extract_response_text resp = ([], Normal text) ->
  Google.response_text_of resp = ([], Normal text) ->
  Github.needs_authentication text = true ->
  exchange o = inr token ->
  retry_call o = inl e -> is_Exception e = true ->
  Google.agent_task o user_message
  = ([APut (PStr "Begin agent execution");
      ACallAgent user_message;
      APut (PStr "Authentication required for Google Calendar access. Starting authorization flow...");
      AOAuth]
     ++ url_actions "Authorization url: " (auth_urls o)
     ++ [ASetToken token; ASetToken token;
         APut (PStr "Authentication successful! Retrying calendar request...");
         ACallAgent user_message;
         APrint ("auth_error: " +++ exn_str e);
         APut (PStr ("Authentication failed: " +++ exn_str e));
         APut (message resp);
         APut (PStr "End agent execution");
         AFinish], Normal tt)
  /\ Github.agent_task o user_message
     = ([APut (PStr "Begin agent execution");
         ACallAgent user_message;
         APut (PStr "Authentication required for GitHub access. Starting authorization flow...");
         AOAuth]
        ++ url_actions "Authorization URL: " (auth_urls o)
        ++ [ASetToken token; ASetToken token;
            APut (PStr "Authentication successful! Retrying GitHub request...");
            ACallAgent user_message;
            APrint ("Authentication error: " +++ exn_str e);
            APut (PStr ("Authentication failed: " +++ exn_str e));
            AFinish], Normal tt).
Proof.
  intros F T T' N E R X. split.
  - change (Github.needs_authentication text) with (Google.needs_auth text)
      in N.
    run_task F T' N. rewrite E. simpl. rewrite R. simpl. rewrite X. simpl.
    now rewrite <- !app_assoc.
  - run_task F T N. rewrite E. simpl. rewrite R. simpl. rewrite X. simpl.
    now rewrite <- !app_assoc.
Qed.

Lemma failed_retry_reported_as_authentication_witness :
  enqueued (trace (Github.agent_task (rt := sample_runtime) retry_fails
                     (PStr "events today")))
  = [PStr "Begin agent execution";
     PStr "Authentication required for GitHub access. Starting authorization flow...";
     PStr "Authentication successful! Retrying GitHub request...";
     PStr "Authentication failed: throttled";
     PNone]
  /\ token_after (trace (Github.agent_task (rt := sample_runtime) retry_fails
                           (PStr "events today"))) None
     = Some "token".
Proof.
  rewrite (proj2 (failed_retry_reported_as_authentication
                    (rt := sample_runtime) retry_fails (PStr "events today")
                    {| message := text_message "Please login first" |}
                    "Please login first" "token"
                    {| exn_class_of := OtherException;
                       exn_str := "throttled" |}
                    eq_refl eq_refl eq_refl eq_refl eq_refl eq_refl eq_refl)).
  split; reflexivity.
Defined.

(** ** The token *)

Lemma token_after_snoc (h : list action) (a : action) (tok : option string) :
  token_after (h ++ [a]) tok
  = match a with ASetToken t => Some t | _ => token_after h tok end.
Proof. unfold token_after. rewrite fold_left_app. reflexivity. Qed.

Lemma step_token (tok0 : option string) (c : coroutine) (r : request) :
  access_token (env r) = token_after (history r) tok0 ->
  access_token (env (step c r)) = token_after (history (step c r)) tok0.
Proof.
  intros H. destruct c; step_cases r.
  - destruct p as [|a p]; simpl; [exact H|].
    rewrite token_after_snoc. now destruct a.
  - destruct g as [| |c']; simpl; auto; [destruct q as [|item q]|destruct p];
      simpl; auto.
    now destruct (is_None item && f).
Qed.

Lemma run_token (tok0 : option string) (schedule : list coroutine)
    (r : request) :
  access_token (env r) = token_after (history r) tok0 ->
  access_token (env (run schedule r))
  = token_after (history (run schedule r)) tok0.
Proof.
  revert r. induction schedule as [|c s IH]; intros r H; [exact H|].
  rewrite run_cons. apply IH, step_token, H.
Qed.

Lemma token_after_cases (h : list action) (tok : option string) :
  token_after h tok = tok
  \/ exists t, In (ASetToken t) h /\ token_after h tok = Some t.
Proof.
  induction h as [|a h IH] using rev_ind; [now left|].
  rewrite token_after_snoc. destruct a; try (destruct IH as [IH|(t & I & IH)];
    [now left|right; exists t; split; [apply in_or_app; now left|exact IH]]).
  right. exists tok0. split; [apply in_or_app; right; now left|reflexivity].
Qed.

Lemma url_actions_no_token (wording : string) (urls : list string)
    (t : string) :
  ~ In (ASetToken t) (url_actions wording urls).
Proof.
  induction urls as [|u l IH]; simpl; [tauto|].
  intros [H|[H|H]]; try discriminate. auto.
Qed.

Ltac token_source :=
  repeat match goal with
         | H : In _ (_ ++ _) |- _ => apply in_app_or in H
         | H : _ \/ _ |- _ => destruct H
         | H : In _ (url_actions _ _) |- _ =>
             now apply url_actions_no_token in H
         | H : In _ (_ :: _) |- _ => simpl in H
         | H : In _ [] |- _ => contradiction H
         | H : False |- _ => contradiction H
         | H : ASetToken _ = ASetToken _ |- _ => injection H as <-
         | H : _ = ASetToken _ |- _ => discriminate H
         end.

Lemma google_token_source {rt : Runtime} (o : outcomes) (user_message : pyval)
    (t : string) :
  In (ASetToken t) (trace (Google.agent_task o user_message)) ->
  exchange o = inr t.
Proof.
  unfold trace. google_cases o; intros H; token_source; auto.
Qed.

Lemma github_token_source {rt : Runtime} (o : outcomes) (user_message : pyval)
    (t : string) :
  In (ASetToken t) (trace (Github.agent_task o user_message)) ->
  exchange o = inr t.
Proof.
  unfold trace. github_cases o; intros H; token_source; auto.
Qed.

(** X12: under every order of the task and the generator, the token in the
    slot during and after a request of either script is the one the request
    found there, or the one the exchange returned: nothing else is ever
    assigned, and a request whose exchange raises leaves the slot as it
    was. *)
Theorem token_only_from_exchange {rt : Runtime} (o : outcomes)
    (payload : list (string * pyval)) (g : globals)
    (schedule : list coroutine) :
  let google := run schedule (Google.agent_invocation o payload g) in
  let github := run schedule (Github.agent_invocation o payload g) in
  (access_token (env google) = access_token g
   \/ exists token, exchange o = inr token
                     /\ access_token (env google) = Some token) /\
  (access_token (env github) = access_token g
   \/ exists token, exchange o = inr token
                     /\ access_token (env github) = Some token).
Proof.
  intros google github. split.
  - subst google. unfold Google.agent_invocation.
    match goal with |- context [create_task ?m g] => set (task := m) end.
    pose proof (run_orderly task schedule _ (created_orderly task g)) as O.
    rewrite (run_token (access_token g) schedule (create_task task g) eq_refl).
    destruct (token_after_cases
                (history (run schedule (create_task task g)))
                (access_token g)) as [E|(t & I & E)]; [now left|right].
    exists t. split; [|exact E].
    apply google_token_source with (user_message :=
      dict_get payload "prompt"
        (PStr "No prompt found in input, please guide customer to create a json payload with prompt key")).
    fold task. rewrite <- (o_history _ _ O). apply in_or_app. now left.
  - subst github. unfold Github.agent_invocation.
    match goal with |- context [create_task ?m g] => set (task := m) end.
    pose proof (run_orderly task schedule _ (created_orderly task g)) as O.
    rewrite (run_token (access_token g) schedule (create_task task g) eq_refl).
    destruct (token_after_cases
                (history (run schedule (create_task task g)))
                (access_token g)) as [E|(t & I & E)]; [now left|right].
    exists t. split; [|exact E].
    apply github_token_source with (user_message :=
      dict_get payload "prompt"
        (PStr "No prompt found in input, please guide customer to create a JSON payload with prompt key")).
    fold task. rewrite <- (o_history _ _ O). apply in_or_app. now left.
Qed.

(** ** The items on the queue *)

(** X13: on a queue that is empty when the task is created, whatever the
    task does and in whatever order the task and the generator run, nothing
    is lost, doubled or reordered: what the task has enqueued so far is
    what the generator has yielded, then the None at which its loop ended,
    if it has, then what is in the queue. *)
Theorem queue_conserves_items (acts : list action) (c : completion unit)
    (g : globals) (schedule : list coroutine) :
  StreamingQueue.queue (queue g) = [] ->
  let r := run schedule (task_of acts c g) in
  history r ++ pending r = acts /\
  enqueued (history r)
  = yielded r ++ taken r ++ StreamingQueue.queue (queue (env r)).
Proof.
  intros Q r.
  pose proof (run_consistent _ acts schedule _
                (created_consistent acts c g Q)) as C.
  split; [apply (c_history _ _ _ C)|apply (c_items _ _ _ C)].
Qed.

Lemma queue_conserves_items_witness :
  let r := run [Task; Task; Generator; Task; Task]
               (Google.agent_invocation (rt := sample_runtime)
                  exchange_succeeds [("prompt", PStr "events")] loaded) in
  enqueued (history r)
  = yielded r ++ taken r ++ StreamingQueue.queue (queue (env r)).
Proof.
  apply (queue_conserves_items
           (trace (Google.agent_task (rt := sample_runtime) exchange_succeeds
                     (PStr "events")))
           (Normal tt) loaded [Task; Task; Generator; Task; Task] eq_refl).
Defined.

(** ** Every request returns *)

Lemma step_sentinel_waits (c : coroutine) (r : request) :
  sentinel_waits r -> sentinel_waits (step c r).
Proof.
  intros [Wf Wn]. destruct c; step_cases r.
  - destruct p as [|a p]; [now constructor|].
    constructor; simpl; rewrite finish_snoc.
    + destruct a; simpl; rewrite ?orb_false_r; auto.
    + intros G X.
      destruct a; simpl in *; rewrite ?orb_false_r in X; auto;
        apply in_or_app; simpl; auto.
  - destruct g as [| |c']; [|destruct p; constructor; simpl; auto;
                             discriminate|now constructor].
    destruct q as [|item q]; [now constructor|].
    destruct (is_None item && f) eqn:B; constructor; simpl; auto;
      try discriminate.
    intros _ X. destruct (Wn eq_refl X) as [->|I]; [|exact I].
    rewrite (Wf X) in B. discriminate B.
Qed.

Lemma run_sentinel_waits (schedule : list coroutine) (r : request) :
  sentinel_waits r -> sentinel_waits (run schedule r).
Proof.
  revert r. induction schedule as [|c s IH]; intros r H; [exact H|].
  apply IH, step_sentinel_waits, H.
Qed.

Lemma created_sentinel_waits (m : M unit) (g : globals) :
  sentinel_waits (create_task m g).
Proof. constructor; simpl; discriminate. Qed.

Lemma split_first_None (q : list pyval) :
  In PNone q ->
  exists items t, q = items ++ PNone :: t /\ Forall not_None items.
Proof.
  induction q as [|v q IH]; [contradiction|].
  destruct (is_None v) eqn:N.
  - intros _. destruct v; try discriminate. now exists [], q.
  - intros [->|I]; [discriminate|].
    destruct (IH I) as (items & t & -> & F).
    exists (v :: items), t. split; [reflexivity|]. now constructor.
Qed.

Lemma orderly_ended_returns (m : M unit) (k : nat) (r : request) :
  orderly m r -> ended r = true -> pending r = [] ->
  gen (run (repeat Generator (S k)) r) = Returned (outcome m).
Proof.
  intros O E P. simpl repeat. rewrite run_cons.
  pose proof (o_outcome _ _ O) as Out.
  destruct r as [g p c h [| |c'] y]; simpl in E, P, Out; try discriminate;
    subst p; simpl step; unfold stream_with_task; simpl.
  - rewrite returned_stays with (c := c) by reflexivity. simpl.
    now rewrite Out.
  - destruct (o_returned _ _ O c' eq_refl) as [_ ->]. simpl.
    rewrite returned_stays with (c := c) by reflexivity. simpl.
    now rewrite Out.
Qed.

Lemma returns_eventually (m : M unit) (g : globals)
    (schedule : list coroutine) :
  In AFinish (trace m) ->
  exists n, forall k,
    gen (run (schedule ++ repeat Task (length (trace m))
              ++ repeat Generator (n + k)) (create_task m g))
    = Returned (outcome m).
Proof.
  intros Fin.
  set (s1 := schedule ++ repeat Task (length (trace m))).
  set (r1 := run s1 (create_task m g)).
  pose proof (run_orderly m s1 _ (created_orderly m g)) as O. fold r1 in O.
  pose proof (run_sentinel_waits s1 _ (created_sentinel_waits m g)) as W.
  fold r1 in W.
  assert (P : pending r1 = [] /\ history r1 = trace m).
  { unfold r1, s1. rewrite run_app.
    pose proof (run_orderly m schedule _ (created_orderly m g)) as O0.
    pose proof (o_history _ _ O0) as Hh.
    set (r0 := run schedule (create_task m g)) in *.
    replace (length (trace m))
      with (length (pending r0) + length (history r0))
      by (rewrite <- Hh, length_app; lia).
    destruct (task_steps (length (history r0)) r0) as (T1 & _ & _ & T4).
    cbv zeta in *. now rewrite T1, T4. }
  destruct P as [P H].
  assert (R : forall n,
             run (schedule ++ repeat Task (length (trace m))
                  ++ repeat Generator n) (create_task m g)
             = run (repeat Generator n) r1)
    by (intros n; rewrite app_assoc; apply run_app).
  destruct (ended r1) eqn:End.
  - exists 1. intros k. rewrite R. now apply orderly_ended_returns.
  - assert (X : existsb is_finish (history r1) = true).
    { rewrite H. apply existsb_exists. exists AFinish. now split. }
    assert (G : gen r1 = Draining)
      by (unfold ended in End; destruct (gen r1); now try discriminate).
    pose proof (w_flag _ W X) as F.
    destruct (split_first_None _ (w_None _ W G X)) as (items & t & Q & N).
    pose proof (o_outcome _ _ O) as Out.
    exists (length items + 2). intros k. rewrite R.
    revert P G F Q Out. clear -N.
    destruct r1 as [[[f q] tok] p c' h gn y]; simpl.
    intros -> -> -> -> ->. now rewrite generator_drains.
Qed.

(** X14: every request of either script returns.  On whatever queue and
    token it starts, whatever its calls return or raise and whatever has
    run so far, once the task has been given its turns there is a number of
    turns of the generator after which [stream_with_task] has returned what
    the task returned, and it stays so. *)
Theorem every_request_returns {rt : Runtime} (o : outcomes)
    (payload : list (string * pyval)) (g : globals)
    (schedule : list coroutine) :
  (exists n, forall k,
     let r0 := Google.agent_invocation o payload g in
     gen (run (schedule ++ repeat Task (length (pending r0))
               ++ repeat Generator (n + k)) r0)
     = Returned (task_outcome r0)) /\
  (exists n, forall k,
     let r0 := Github.agent_invocation o payload g in
     gen (run (schedule ++ repeat Task (length (pending r0))
               ++ repeat Generator (n + k)) r0)
     = Returned (task_outcome r0)).
Proof.
  split.
  - apply returns_eventually.
    destruct (google_finishes_last o
                (dict_get payload "prompt"
                   (PStr "No prompt found in input, please guide customer to create a json payload with prompt key")))
      as (pre & -> & _).
    apply in_or_app. right. now left.
  - apply returns_eventually.
    destruct (github_finishes_last o
                (dict_get payload "prompt"
                   (PStr "No prompt found in input, please guide customer to create a JSON payload with prompt key")))
      as (pre & -> & _).
    apply in_or_app. right. now left.
Qed.

(** ** A queue that was not read to its end *)

Lemma step_on_leftovers (items t : list pyval) (c : coroutine) (r : request) :
  Forall not_None items ->
  on_leftovers items t r -> on_leftovers items t (step c r).
Proof.
  intros N [F L]. destruct c; step_cases r.
  - destruct p as [|a p]; [now split|]. split.
    + simpl. destruct a; simpl; auto.
    + simpl. rewrite enqueued_snoc. destruct g as [| |c'].
      * destruct L as (rest & E & Q). exists rest. split; [exact E|].
        subst q. destruct a; simpl;
          rewrite ?app_nil_r, <- ?app_assoc; simpl;
          rewrite <- ?app_assoc; reflexivity.
      * destruct L as [E Q]. split; [exact E|]. subst q.
        destruct a; simpl; rewrite ?app_nil_r, <- ?app_assoc; reflexivity.
      * destruct L as [E Q]. split; [exact E|]. subst q.
        destruct a; simpl; rewrite ?app_nil_r, <- ?app_assoc; reflexivity.
  - destruct g as [| |c']; [|destruct p; now split|now split].
    destruct L as (rest & E & Q). subst f q.
    destruct rest as [|v rest]; simpl.
    + split; [reflexivity|]. simpl. now rewrite app_nil_r in E.
    + assert (Nv : is_None v = false).
      { rewrite E in N. apply Forall_app in N as [_ N].
        now inversion N. }
      rewrite Nv. simpl. split; [reflexivity|]. simpl.
      exists rest. split; [now rewrite <- app_assoc|reflexivity].
Qed.

Lemma run_on_leftovers (items t : list pyval) (schedule : list coroutine)
    (r : request) :
  Forall not_None items ->
  on_leftovers items t r -> on_leftovers items t (run schedule r).
Proof.
  intros N. revert r. induction schedule as [|c s IH]; intros r H; [exact H|].
  apply IH, step_on_leftovers; assumption.
Qed.

(** X15: the queue belongs to the module, so a request can find in it what
    an earlier stream did not read.  When a task is created on a queue whose
    flag is set and that holds items, none of them None, and then a None,
    under every order of the task and the generator the generator yields
    only those items; when its loop has ended it has yielded exactly them,
    and everything its own task has enqueued is still in the queue. *)
Theorem unread_items_go_to_the_next_request (m : M unit) (g : globals)
    (items t : list pyval) (schedule : list coroutine) :
  queue g = {| StreamingQueue.finished := true;
               StreamingQueue.queue := items ++ PNone :: t |} ->
  Forall not_None items ->
  let r := run schedule (create_task m g) in
  (exists rest, items = yielded r ++ rest) /\
  (ended r = true ->
   yielded r = items
   /\ StreamingQueue.queue (queue (env r)) = t ++ enqueued (history r)).
Proof.
  intros Q N r.
  assert (L : on_leftovers items t r).
  { apply run_on_leftovers; [exact N|]. split; simpl; rewrite Q; simpl; auto.
    exists items. split; [reflexivity|]. now rewrite app_nil_r. }
  destruct L as [_ L]. unfold ended. destruct (gen r).
  - destruct L as (rest & E & _). split; [eauto|discriminate].
  - destruct L as [E Q']. split; [exists []; now rewrite app_nil_r|auto].
  - destruct L as [E Q']. split; [exists []; now rewrite app_nil_r|auto].
Qed.

Lemma unread_items_go_to_the_next_request_witness :
  let first := Google.agent_invocation (rt := sample_runtime) answers
                 [("prompt", PStr "events today")] loaded in
  let left := run (repeat Task 5 ++ [Generator]) first in
  let second := Google.agent_invocation (rt := sample_runtime)
                  exchange_succeeds [("prompt", PStr "events tomorrow")]
                  (env left) in
  let r := run (task_first (pending second)) second in
  ended r = true
  /\ yielded r = [text_message "Your events"; PStr "End agent execution"]
  /\ StreamingQueue.queue (queue (env r)) = [] ++ enqueued (history r).
Proof.
  intros first left second r. split; [reflexivity|].
  assert (N : Forall not_None
                [text_message "Your events"; PStr "End agent execution"])
    by (repeat constructor).
  apply (proj2 (unread_items_go_to_the_next_request
                  (Google.agent_task (rt := sample_runtime) exchange_succeeds
                     (PStr "events tomorrow"))
                  (env left)
                  [text_message "Your events"; PStr "End agent execution"] []
                  (task_first (pending second)) eq_refl N)).
  reflexivity.
Defined.

(** X16: on a message that is a dict whose content is no list the two
    scripts part: the Google script reads the empty text, the GitHub script
    reads [str] of the whole message. *)
Theorem content_that_is_no_list {rt : Runtime} (r : response)
    (d : list (string * pyval)) :
  message r = PDict d ->
  (forall content, dict_get d "content" (PList []) <> PList content) ->
  Google.response_text_of r = ([], Normal "")
  /\ Github.extract_response_text r = ([], Normal (py_str (PDict d))).
Proof.
  intros M C. unfold Google.response_text_of, Github.extract_response_text.
  rewrite M. destruct (dict_get d "content" (PList [])); auto.
  now elim (C l).
Qed.

Lemma content_that_is_no_list_witness :
  Google.response_text_of (rt := sample_runtime)
    {| message := PDict [("content", PStr "please login")] |}
  = ([], Normal "")
  /\ Github.extract_response_text (rt := sample_runtime)
       {| message := PDict [("content", PStr "please login")] |}
     = ([], Normal "{'content': 'please login'}").
Proof.
  apply (content_that_is_no_list (rt := sample_runtime)
           {| message := PDict [("content", PStr "please login")] |}
           [("content", PStr "please login")] eq_refl).
  discriminate.
Defined.
